(** * tauri-windows-bundle: configuration merge and manifest generation

    A shallow embedding of the pure core of the packaging tool:
    - [Text]: the JavaScript string and array primitives the code calls
      ([split], [join], [slice], [padStart], [toString(16)], ...);
    - [ProjectDiscovery]: [toFourPartVersion] of src/core/project-discovery.ts;
    - [Merge]: [jsonMergePatch] of src/utils/merge.ts;
    - [Types]: the capability vocabularies and [validateCapabilities] of
      src/types.ts;
    - [Manifest]: [generateCapabilities], [generateClsid], [generateExtensions]
      and [generateManifest] of src/core/manifest.ts;
    - [Build]: the configuration block of [build] in src/commands/build.ts;
    - [RootSearch]: [findProjectRoot] and [findPackageRoot];
    - [Exec]: [isVersionSufficient] of src/utils/exec.ts;
    - [Assets]: the placeholder PNG writer of the generators;
    - [Generators]: the object that [generateBundleConfig] writes.

    JavaScript strings are modelled as [string]; a character stands for one
    code unit.  Optional properties are [option] values, with [None] for
    [undefined]. *)

From Stdlib Require Import String Ascii List ZArith Lia Bool Arith.
Import ListNotations.

Set Warnings "-register-all".

Local Open Scope string_scope.
Local Open Scope list_scope.

(* ================================================================== *)
(** ** JavaScript string and array primitives *)
(* ================================================================== *)

Module Text.

(** [s.split(sep)] for a one-character separator: the pieces between the
    occurrences of [sep]; the empty string splits into one empty piece. *)
Fixpoint split (sep : ascii) (s : string) : list string :=
  match s with
  | EmptyString => [EmptyString]
  | String c rest =>
      if Ascii.eqb c sep then EmptyString :: split sep rest
      else match split sep rest with
           | [] => [String c EmptyString]
           | piece :: pieces => String c piece :: pieces
           end
  end.

(** [parts.join(sep)]. *)
Fixpoint join (sep : string) (parts : list string) : string :=
  match parts with
  | [] => EmptyString
  | [p] => p
  | p :: rest => p ++ sep ++ join sep rest
  end.

(** [s.includes(c)] for a single character. *)
Fixpoint has_char (c : ascii) (s : string) : bool :=
  match s with
  | EmptyString => false
  | String d rest => Ascii.eqb d c || has_char c rest
  end.

(** The double quote and the line feed, as one-character strings. *)
Definition dquote : string := String "034"%char EmptyString.
Definition newline : string := String "010"%char EmptyString.

(** [arr.slice(0, n)]. *)
Definition slice0 {A : Type} (n : nat) (arr : list A) : list A := firstn n arr.

(** [arr.includes(x)] on an array of strings. *)
Fixpoint includes (arr : list string) (x : string) : bool :=
  match arr with
  | [] => false
  | y :: rest => String.eqb y x || includes rest x
  end.

(** The truthiness test [s || d] on an optional string: [undefined] and the
    empty string both give the default. *)
Definition or_else (o : option string) (d : string) : string :=
  match o with
  | Some EmptyString => d
  | Some s => s
  | None => d
  end.

(** [s.length], [s1 + s2] and friends are [String.length] and [++]. *)

(** Every character of [s] passes the test [ok]. *)
Fixpoint allChars (ok : ascii -> bool) (s : string) : bool :=
  match s with
  | EmptyString => true
  | String c rest => ok c && allChars ok rest
  end.

(** [c.repeat(n)] for a one-character string. *)
Fixpoint repeatChar (c : ascii) (n : nat) : string :=
  match n with
  | O => EmptyString
  | S n' => String c (repeatChar c n')
  end.

(** [s.padStart(n, fill)] for a one-character filler. *)
Definition padStart (n : nat) (fill : ascii) (s : string) : string :=
  (repeatChar fill (n - String.length s) ++ s)%string.

(** [s.slice(a, b)] for indices [0 <= a <= b]. *)
Definition slice (a b : nat) (s : string) : string := substring a (b - a) s.

(** One digit of base 16, as [toString(16)] writes it. *)
Definition hexDigit (d : Z) : ascii :=
  match d with
  | 0 => "0" | 1 => "1" | 2 => "2" | 3 => "3" | 4 => "4" | 5 => "5"
  | 6 => "6" | 7 => "7" | 8 => "8" | 9 => "9" | 10 => "a" | 11 => "b"
  | 12 => "c" | 13 => "d" | 14 => "e" | _ => "f"
  end%Z%char.

(** The digits of [n] in base 16, most significant first, in front of
    [acc]; one turn for each digit. *)
Fixpoint hexDigits (turns : nat) (n : Z) (acc : string) : string :=
  match turns with
  | O => acc
  | S turns' =>
      if (n <? 16)%Z then String (hexDigit n) acc
      else hexDigits turns' (n / 16) (String (hexDigit (n mod 16)) acc)
  end.

(** [n.toString(16)] for an integer [n >= 0]: [n] has at most
    [log2 n + 1] digits. *)
Definition toString16 (n : Z) : string :=
  hexDigits (S (Z.to_nat (Z.log2 n))) n EmptyString.

(** The number a string of base-16 digits stands for. *)
Definition hexDigitValue (c : ascii) : Z :=
  let n := Z.of_nat (nat_of_ascii c) in
  if (n <? 58)%Z then n - 48 else n - 87.

Fixpoint hexValue (acc : Z) (s : string) : Z :=
  match s with
  | EmptyString => acc
  | String c rest => hexValue (16 * acc + hexDigitValue c) rest
  end.

Definition isLowerHex (c : ascii) : bool := has_char c "0123456789abcdef".
Definition isUpperHex (c : ascii) : bool := has_char c "0123456789ABCDEF".

(** [s.toUpperCase()] on the letters a to z; other characters below 128
    stay as they are. *)
Definition upperChar (c : ascii) : ascii :=
  let n := nat_of_ascii c in
  if ((97 <=? n) && (n <=? 122))%nat then ascii_of_nat (n - 32) else c.

Fixpoint toUpperCase (s : string) : string :=
  match s with
  | EmptyString => EmptyString
  | String c rest => String (upperChar c) (toUpperCase rest)
  end.

(** [s.charCodeAt(i)] for every [i] in turn. *)
Fixpoint charCodes (s : string) : list Z :=
  match s with
  | EmptyString => []
  | String c rest => Z.of_nat (nat_of_ascii c) :: charCodes rest
  end.

(** [s.startsWith(p)] is [String.prefix p s]; [s.endsWith(p)]: *)
Fixpoint endsWith (suffix s : string) : bool :=
  String.eqb suffix s
  || match s with
     | EmptyString => false
     | String _ rest => endsWith suffix rest
     end.

(** [s.replaceAll(pattern, replacement)] for a non-empty [pattern], with
    the replacement taken as plain text: the occurrences are found from the
    left and do not overlap.  [skip] counts the characters of a match that
    are still to be passed over. *)
Fixpoint replaceAllFrom (pattern replacement : string) (skip : nat)
    (s : string) : string :=
  match s with
  | EmptyString => EmptyString
  | String c rest =>
      match skip with
      | S skip' => replaceAllFrom pattern replacement skip' rest
      | O =>
          if prefix pattern s
          then (replacement
                ++ replaceAllFrom pattern replacement
                     (String.length pattern - 1) rest)%string
          else String c (replaceAllFrom pattern replacement 0 rest)
      end
  end.

Definition replaceAll (pattern replacement s : string) : string :=
  replaceAllFrom pattern replacement 0 s.



(** The characters the class [\s] matches and [trimEnd] removes, among the
    code units below 256: tab, line feed, vertical tab, form feed, carriage
    return, space and no-break space. *)
Definition isWhitespace (c : ascii) : bool :=
  let n := nat_of_ascii c in
  ((9 <=? n) && (n <=? 13) || (n =? 32) || (n =? 160))%nat.

(** [s.trimEnd()]. *)
Fixpoint trimEnd (s : string) : string :=
  match s with
  | EmptyString => EmptyString
  | String c rest =>
      match trimEnd rest with
      | EmptyString => if isWhitespace c then EmptyString
                       else String c EmptyString
      | kept => String c kept
      end
  end.

(** [s.replace(/\s+/g, '')] and [s.replace(/[{}]/g, '')]: the characters
    that pass [drop] are left out. *)
Fixpoint removeChars (drop : ascii -> bool) (s : string) : string :=
  match s with
  | EmptyString => EmptyString
  | String c rest =>
      if drop c then removeChars drop rest
      else String c (removeChars drop rest)
  end.

Definition isBrace (c : ascii) : bool :=
  (Ascii.eqb c "{" || Ascii.eqb c "}")%char.

Lemma allChars_append ok s t :
  allChars ok (s ++ t) = allChars ok s && allChars ok t.
Proof.
  induction s as [|c s IH]; simpl; [reflexivity|].
  now rewrite IH, andb_assoc.
Qed.

Lemma allChars_substring ok a m s :
  allChars ok s = true -> allChars ok (substring a m s) = true.
Proof.
  revert a m.
  induction s as [|c s IH]; intros a m H.
  - destruct a, m; reflexivity.
  - simpl in H. apply andb_true_iff in H as [Hc Hs].
    destruct a as [|a]; [destruct m as [|m]|]; simpl; auto.
    now rewrite Hc, IH.
Qed.

Lemma allChars_repeatChar ok c n :
  ok c = true -> allChars ok (repeatChar c n) = true.
Proof.
  intros H. induction n as [|n IH]; simpl; [reflexivity|].
  now rewrite H, IH.
Qed.

Lemma length_append s t :
  String.length (s ++ t) = String.length s + String.length t.
Proof.
  induction s as [|c s IH]; simpl; [reflexivity|]. now rewrite IH.
Qed.

Lemma length_repeatChar c n : String.length (repeatChar c n) = n.
Proof.
  induction n as [|n IH]; simpl; [reflexivity|]. now rewrite IH.
Qed.

Lemma length_substring a m s :
  a + m <= String.length s -> String.length (substring a m s) = m.
Proof.
  revert a m.
  induction s as [|c s IH]; intros a m H; simpl in H.
  - assert (a = 0) by lia. assert (m = 0) by lia. subst. reflexivity.
  - destruct a as [|a]; [destruct m as [|m]|]; simpl; auto.
    + rewrite IH by (simpl; lia). reflexivity.
    + apply IH. lia.
Qed.

Lemma length_padStart n fill s :
  String.length (padStart n fill s) = Nat.max n (String.length s).
Proof.
  unfold padStart. rewrite length_append, length_repeatChar. lia.
Qed.

Lemma length_slice a b s :
  a <= b -> b <= String.length s -> String.length (slice a b s) = b - a.
Proof.
  intros Hab Hb. unfold slice. apply length_substring. lia.
Qed.

Lemma allChars_padStart ok n fill s :
  ok fill = true -> allChars ok s = true ->
  allChars ok (padStart n fill s) = true.
Proof.
  intros Hf Hs. unfold padStart.
  now rewrite allChars_append, allChars_repeatChar, Hs.
Qed.

Lemma toUpperCase_append s t :
  toUpperCase (s ++ t) = (toUpperCase s ++ toUpperCase t)%string.
Proof.
  induction s as [|c s IH]; simpl; [reflexivity|]. now rewrite IH.
Qed.

Lemma length_toUpperCase s : String.length (toUpperCase s) = String.length s.
Proof.
  induction s as [|c s IH]; simpl; [reflexivity|]. now rewrite IH.
Qed.

Lemma upperChar_hex c : isLowerHex c = true -> isUpperHex (upperChar c) = true.
Proof.
  destruct c as [[] [] [] [] [] [] [] []]; vm_compute; congruence.
Qed.

Lemma toUpperCase_hex s :
  allChars isLowerHex s = true -> allChars isUpperHex (toUpperCase s) = true.
Proof.
  induction s as [|c s IH]; simpl; [reflexivity|].
  intros H. apply andb_true_iff in H as [Hc Hs].
  now rewrite (upperChar_hex c Hc), IH.
Qed.

Lemma hexDigit_lower d : isLowerHex (hexDigit d) = true.
Proof.
  destruct d as [|p|p]; try reflexivity.
  do 4 (destruct p as [p|p|]; try reflexivity).
Qed.

Lemma hexDigits_lower turns n acc :
  allChars isLowerHex acc = true ->
  allChars isLowerHex (hexDigits turns n acc) = true.
Proof.
  revert n acc.
  induction turns as [|turns IH]; intros n acc H; simpl; [exact H|].
  destruct (n <? 16)%Z.
  - simpl. now rewrite hexDigit_lower, H.
  - apply IH. simpl. now rewrite hexDigit_lower, H.
Qed.

(** A number below [16^k] is written with at most [k] digits. *)
Lemma hexDigits_length turns n acc k :
  (0 <= n < 16 ^ Z.of_nat k)%Z -> 1 <= k ->
  String.length (hexDigits turns n acc) <= k + String.length acc.
Proof.
  revert n acc k.
  induction turns as [|turns IH]; intros n acc k Hn Hk; simpl; [lia|].
  destruct (n <? 16)%Z eqn:E.
  - simpl. lia.
  - apply Z.ltb_ge in E.
    destruct k as [|[|k]]; [lia | simpl in Hn; lia |].
    specialize (IH (n / 16)%Z (String (hexDigit (n mod 16)) acc) (S k)).
    simpl String.length in IH.
    assert (0 <= n / 16 < 16 ^ Z.of_nat (S k))%Z.
    { split; [apply Z.div_pos; lia|].
      apply Z.div_lt_upper_bound; [lia|].
      replace (Z.of_nat (S (S k))) with (Z.succ (Z.of_nat (S k))) in Hn
        by lia.
      rewrite Z.pow_succ_r in Hn by lia. lia. }
    specialize (IH H). lia.
Qed.

Lemma toString16_lower n : allChars isLowerHex (toString16 n) = true.
Proof. unfold toString16. now apply hexDigits_lower. Qed.

Lemma toString16_length n k :
  (0 <= n < 16 ^ Z.of_nat k)%Z -> 1 <= k ->
  String.length (toString16 n) <= k.
Proof.
  intros Hn Hk. unfold toString16.
  pose proof (hexDigits_length (S (Z.to_nat (Z.log2 n))) n EmptyString k Hn Hk)
    as H.
  change (String.length EmptyString) with 0 in H. lia.
Qed.

Lemma hexDigitValue_hexDigit d :
  (0 <= d < 16)%Z -> hexDigitValue (hexDigit d) = d.
Proof.
  intros H.
  assert (d = 0 \/ d = 1 \/ d = 2 \/ d = 3 \/ d = 4 \/ d = 5 \/ d = 6 \/ d = 7
          \/ d = 8 \/ d = 9 \/ d = 10 \/ d = 11 \/ d = 12 \/ d = 13 \/ d = 14
          \/ d = 15)%Z as Hd by lia.
  repeat (destruct Hd as [Hd|Hd]; [subst d; reflexivity|]).
  subst d; reflexivity.
Qed.

(** With a turn for each digit, the digits written stand for [n]. *)
Lemma hexDigits_value turns n acc :
  (0 <= n < 16 ^ Z.of_nat turns)%Z ->
  hexValue 0 (hexDigits turns n acc) = hexValue n acc.
Proof.
  revert n acc.
  induction turns as [|turns IH]; intros n acc Hn.
  - simpl in *. replace n with 0%Z by lia. reflexivity.
  - cbn [hexDigits]. destruct (n <? 16)%Z eqn:E.
    + apply Z.ltb_lt in E. cbn [hexValue].
      rewrite hexDigitValue_hexDigit by lia. f_equal; lia.
    + apply Z.ltb_ge in E.
      rewrite IH.
      * cbn [hexValue].
        rewrite hexDigitValue_hexDigit by (apply Z.mod_pos_bound; lia).
        f_equal; pose proof (Z.div_mod n 16); lia.
      * split; [apply Z.div_pos; lia|].
        apply Z.div_lt_upper_bound; [lia|].
        replace (Z.of_nat (S turns)) with (Z.succ (Z.of_nat turns)) in Hn
          by lia.
        rewrite Z.pow_succ_r in Hn by lia. lia.
Qed.

Lemma toString16_value n : (0 <= n)%Z -> hexValue 0 (toString16 n) = n.
Proof.
  intros Hn. unfold toString16.
  rewrite hexDigits_value; [reflexivity|].
  split; [exact Hn|].
  destruct (Z.eq_dec n 0) as [->|Hnz]; [reflexivity|].
  pose proof (Z.log2_spec n ltac:(lia)) as [_ Hup].
  pose proof (Z.log2_nonneg n) as Hlog.
  replace (Z.of_nat (S (Z.to_nat (Z.log2 n)))) with (Z.succ (Z.log2 n))
    by lia.
  eapply Z.lt_le_trans; [exact Hup|].
  apply Z.pow_le_mono_l. lia.
Qed.

Example toString16_255 : toString16 255 = "ff".
Proof. reflexivity. Qed.

Example toString16_0 : toString16 0 = "0".
Proof. reflexivity. Qed.

Example toString16_2_31 : toString16 2147483648 = "80000000".
Proof. reflexivity. Qed.




Example replaceAll_twice :
  replaceAll "{{A}}" "x" "<{{A}}|{{A}}{{B}}>" = "<x|x{{B}}>".
Proof. reflexivity. Qed.

Example trimEnd_lines : trimEnd (" a b " ++ newline ++ " ") = " a b".
Proof. reflexivity. Qed.

Example endsWith_exe : endsWith ".exe" "tool.exe" = true.
Proof. reflexivity. Qed.

Lemma Forall_slice0 {A : Type} (P : A -> Prop) n (arr : list A) :
  Forall P arr -> Forall P (slice0 n arr).
Proof.
  unfold slice0. intros H. revert n.
  induction H as [|x l Hx Hl IH]; intros [|n]; simpl; constructor; auto.
Qed.

Lemma has_char_append c s t :
  has_char c (s ++ t) = has_char c s || has_char c t.
Proof.
  induction s as [|d s IH]; simpl; [reflexivity|].
  rewrite IH. now rewrite orb_assoc.
Qed.

Lemma split_nonempty sep s : split sep s <> [].
Proof.
  destruct s as [|c rest]; simpl; [discriminate|].
  destruct (Ascii.eqb c sep); [discriminate|].
  destruct (split sep rest); discriminate.
Qed.

Lemma split_pieces_free sep s :
  Forall (fun p => has_char sep p = false) (split sep s).
Proof.
  induction s as [|c rest IH]; simpl.
  - constructor; [reflexivity | constructor].
  - destruct (Ascii.eqb c sep) eqn:E.
    + constructor; [reflexivity | exact IH].
    + destruct (split sep rest) as [|p ps]; inversion IH; subst;
        constructor; simpl; try rewrite E; auto.
Qed.

Lemma split_free sep s :
  has_char sep s = false -> split sep s = [s].
Proof.
  induction s as [|c rest IH]; simpl; [reflexivity|].
  intros H. apply orb_false_iff in H as [Hc Hr].
  rewrite Hc, (IH Hr). reflexivity.
Qed.

Lemma split_append_sep sep p s :
  has_char sep p = false ->
  split sep (p ++ String sep s) = p :: split sep s.
Proof.
  induction p as [|c p IH]; simpl; intros H.
  - now rewrite Ascii.eqb_refl.
  - apply orb_false_iff in H as [Hc Hp].
    rewrite Hc, (IH Hp). reflexivity.
Qed.

(** Splitting undoes joining when no piece holds the separator. *)
Lemma split_join sep parts :
  parts <> [] ->
  Forall (fun p => has_char sep p = false) parts ->
  split sep (join (String sep EmptyString) parts) = parts.
Proof.
  induction parts as [|p rest IH]; intros Hne Hall; [congruence|].
  inversion Hall as [|? ? Hp Hrest]; subst.
  destruct rest as [|q rest'].
  - simpl. now apply split_free.
  - change (join (String sep "") (p :: q :: rest'))
      with (p ++ String sep (join (String sep "") (q :: rest')))%string.
    rewrite split_append_sep by exact Hp.
    rewrite IH; [reflexivity | discriminate | exact Hrest].
Qed.

(** Joining the pieces of a split gives the string back. *)
Lemma join_split sep s : join (String sep EmptyString) (split sep s) = s.
Proof.
  induction s as [|c rest IH]; [reflexivity|].
  cbn [split]. destruct (Ascii.eqb c sep) eqn:E.
  - apply Ascii.eqb_eq in E. subst c.
    pose proof (split_nonempty sep rest) as Hne.
    destruct (split sep rest) as [|p ps]; [congruence|].
    change (join (String sep "") ("" :: p :: ps))
      with (String sep (join (String sep "") (p :: ps))).
    now rewrite IH.
  - pose proof (split_nonempty sep rest) as Hne.
    destruct (split sep rest) as [|p ps]; [congruence|].
    destruct ps as [|q ps].
    + simpl in *. now rewrite IH.
    + change (join (String sep "") (String c p :: q :: ps))
        with (String c (join (String sep "") (p :: q :: ps))).
      now rewrite IH.
Qed.

End Text.

(* ================================================================== *)
(** ** src/core/project-discovery.ts *)
(* ================================================================== *)

Module ProjectDiscovery.
Import Text.

(** [while (parts.length < 4) parts.push('0')]: every turn of the loop makes
    [parts] one longer, so it ends within four turns. *)
Fixpoint pushZeros (turns : nat) (parts : list string) : list string :=
  match turns with
  | O => parts
  | S turns' =>
      if (List.length parts <? 4)%nat then pushZeros turns' (parts ++ ["0"]) else parts
  end.

Definition toFourPartVersion (version : string) : string :=
  let parts := split "." version in
  let parts := pushZeros 4 parts in
  join "." (slice0 4 parts).

Lemma pushZeros_pads turns parts :
  4 - List.length parts <= turns ->
  pushZeros turns parts = parts ++ repeat "0" (4 - List.length parts).
Proof.
  revert parts.
  induction turns as [|turns IH]; intros parts Hturns; cbn [pushZeros].
  - replace (4 - List.length parts) with 0 by lia.
    simpl. now rewrite app_nil_r.
  - destruct (List.length parts <? 4)%nat eqn:E.
    + apply Nat.ltb_lt in E.
      assert (Hlen : List.length (parts ++ ["0"]) = S (List.length parts))
        by (rewrite length_app; simpl; lia).
      rewrite IH by lia. rewrite Hlen.
      replace (4 - List.length parts)
        with (S (4 - S (List.length parts))) by lia.
      cbn [repeat]. now rewrite <- app_assoc.
    + apply Nat.ltb_ge in E.
      replace (4 - List.length parts) with 0 by lia.
      simpl. now rewrite app_nil_r.
Qed.

(** The segments of the result, for any input. *)
Lemma toFourPartVersion_segments version :
  split "." (toFourPartVersion version) =
  firstn 4 (split "." version
            ++ repeat "0" (4 - List.length (split "." version))).
Proof.
  unfold toFourPartVersion.
  rewrite pushZeros_pads by lia.
  change (firstn 4) with (@slice0 string 4).
  pose proof (split_nonempty "." version) as Hne.
  pose proof (split_pieces_free "." version) as Hfree.
  apply split_join.
  - unfold slice0. destruct (split "." version); [congruence | discriminate].
  - apply Forall_slice0, Forall_app. split; [exact Hfree|].
    apply Forall_forall. intros p Hp.
    apply repeat_spec in Hp. subst p. reflexivity.
Qed.

Lemma toFourPartVersion_length version :
  List.length (split "." (toFourPartVersion version)) = 4.
Proof.
  rewrite toFourPartVersion_segments, length_firstn, length_app, repeat_length.
  lia.
Qed.

(** Claim C4.  For every version string the normalized version has exactly
    four dot-separated segments: the segments of the input, padded at the end
    with "0" up to four and cut after the fourth.  "1.0" becomes "1.0.0.0"
    and "1.2.3.4.5" becomes "1.2.3.4". *)
Theorem toFourPartVersion_pads_and_truncates :
  forall version : string,
    List.length (split "." (toFourPartVersion version)) = 4 /\
    split "." (toFourPartVersion version) =
      firstn 4 (split "." version
                ++ repeat "0" (4 - List.length (split "." version))) /\
    toFourPartVersion "1.0" = "1.0.0.0" /\
    toFourPartVersion "1.2.3.4.5" = "1.2.3.4".
Proof.
  intros version. repeat split.
  - apply toFourPartVersion_length.
  - apply toFourPartVersion_segments.
Qed.

(** Claim C9, as stated, fails: not every non-numeric segment of the input
    reaches the output.  "abc" is the fifth segment of "1.2.3.4.abc" and
    no segment of the result "1.2.3.4". *)
Lemma toFourPartVersion_drops_late_segment :
  In "abc" (split "." "1.2.3.4.abc") /\
  toFourPartVersion "1.2.3.4.abc" = "1.2.3.4" /\
  ~ In "abc" (split "." (toFourPartVersion "1.2.3.4.abc")) /\
  ~ (forall version segment : string,
        In segment (split "." version) ->
        In segment (split "." (toFourPartVersion version))).
Proof.
  assert (Hin : In "abc" (split "." "1.2.3.4.abc"))
    by (vm_compute; tauto).
  assert (Hout : ~ In "abc" (split "." (toFourPartVersion "1.2.3.4.abc")))
    by (vm_compute; intuition discriminate).
  repeat split; try assumption.
  intros Hall. exact (Hout (Hall _ _ Hin)).
Qed.

(** Claim C9, as amended.  For every input, the empty string and
    non-numeric text included, the result splits on "." into exactly four
    segments; the segments are the first four segments of the input,
    unchanged and unchecked, followed by "0" fillers only.  So a segment
    such as "abc" stays in the output as it is when it is among the first
    four, and is dropped with every later segment otherwise. *)
Theorem toFourPartVersion_no_numeric_validation :
  forall version : string,
    List.length (split "." (toFourPartVersion version)) = 4 /\
    (exists fillers,
        split "." (toFourPartVersion version) =
          firstn 4 (split "." version) ++ fillers /\
        Forall (fun seg => seg = "0") fillers) /\
    toFourPartVersion "" = ".0.0.0" /\
    toFourPartVersion "abc" = "abc.0.0.0" /\
    toFourPartVersion "1.x.3-beta" = "1.x.3-beta.0" /\
    toFourPartVersion "a.b.c.d.e" = "a.b.c.d".
Proof.
  intros version. repeat split.
  - apply toFourPartVersion_length.
  - rewrite toFourPartVersion_segments, firstn_app.
    eexists. split; [reflexivity|].
    apply Forall_forall. intros seg Hin.
    assert (Hrep : In seg (repeat "0"
                             (4 - List.length (split "." version)))).
    { revert Hin. generalize (4 - List.length (split "." version)) at 1.
      intros n. revert n.
      induction (repeat "0" (4 - List.length (split "." version)))
        as [|x l IH]; intros [|n]; simpl; try tauto.
      intros [H|H]; [now left | right; eauto]. }
    apply repeat_spec in Hrep. exact Hrep.
Qed.

Lemma toFourPartVersion_of_four version :
  List.length (split "." version) = 4 -> toFourPartVersion version = version.
Proof.
  intros Hlen. unfold toFourPartVersion, slice0.
  rewrite pushZeros_pads by lia. rewrite Hlen. cbn [Nat.sub repeat].
  rewrite app_nil_r, firstn_all2 by lia.
  apply join_split.
Qed.

(** Property X1.  A version that has exactly four dot-separated segments
    is returned unchanged, whatever the segments are; so normalizing an
    already normalized version changes nothing. *)
Theorem toFourPartVersion_idempotent :
  (forall version : string,
      List.length (split "." version) = 4 ->
      toFourPartVersion version = version) /\
  (forall version : string,
      toFourPartVersion (toFourPartVersion version)
      = toFourPartVersion version).
Proof.
  split.
  - apply toFourPartVersion_of_four.
  - intros version. apply toFourPartVersion_of_four, toFourPartVersion_length.
Qed.

Lemma toFourPartVersion_idempotent_witness :
  toFourPartVersion "10.0.17763.0" = "10.0.17763.0".
Proof.
  apply (proj1 toFourPartVersion_idempotent "10.0.17763.0"). reflexivity.
Defined.

End ProjectDiscovery.

(* ================================================================== *)
(** ** src/utils/merge.ts *)
(* ================================================================== *)

Module Merge.

(** The values a parsed document is made of, and [undefined], which a
    property read of a missing key yields.  An object is the list of its
    own properties in the order in which [Object.entries] and the spread
    enumerate them; numbers are integer literals, which the merge never
    computes on.  [VObject] is an object whose prototype is
    Object.prototype, as every parsed object and every object literal is;
    [VWithProto props proto] is an object whose prototype has been
    replaced by [proto] (an object, an array, or [VNull] for no
    prototype), which is what an assignment to its __proto__ leaves. *)
Inductive value : Type :=
| VUndefined
| VNull
| VBool (b : bool)
| VNumber (n : Z)
| VString (s : string)
| VArray (items : list value)
| VObject (props : list (string * value))
| VWithProto (props : list (string * value)) (proto : value).

Definition object := list (string * value).

(** [key in obj] and [obj[key]], for the own properties. *)
Fixpoint lookup (key : string) (obj : object) : option value :=
  match obj with
  | [] => None
  | (k, v) :: rest => if String.eqb k key then Some v else lookup key rest
  end.

Definition prop (key : string) (obj : object) : value :=
  match lookup key obj with
  | Some v => v
  | None => VUndefined
  end.

(** [delete obj[key]]: only an own property is removed. *)
Fixpoint delete (key : string) (obj : object) : object :=
  match obj with
  | [] => []
  | (k, v) :: rest =>
      if String.eqb k key then delete key rest else (k, v) :: delete key rest
  end.

(** An own property that exists takes the new value and keeps its place. *)
Fixpoint update (key : string) (v : value) (obj : object) : object :=
  match obj with
  | [] => []
  | (k, w) :: rest =>
      if String.eqb k key then (k, v) :: rest else (k, w) :: update key v rest
  end.

Definition decimalDigit (c : ascii) : bool :=
  (48 <=? nat_of_ascii c)%nat && (nat_of_ascii c <=? 57)%nat.

Fixpoint decimalValue (s : string) (acc : N) : option N :=
  match s with
  | EmptyString => Some acc
  | String c rest =>
      if decimalDigit c
      then decimalValue rest (10 * acc + N.of_nat (nat_of_ascii c - 48))%N
      else None
  end.

(** A key is an array index when it is the decimal numeral, without
    leading zeros, of a number from 0 to 2^32 - 2. *)
Definition arrayIndex (key : string) : option N :=
  match key with
  | EmptyString => None
  | String c rest =>
      if Ascii.eqb c "0" && negb (String.eqb rest EmptyString) then None
      else match decimalValue key 0 with
           | Some n => if (n <? 4294967295)%N then Some n else None
           | None => None
           end
  end.

(** A new array-index key goes among the index keys, which come first in
    ascending order. *)
Fixpoint insertIndex (n : N) (key : string) (v : value) (obj : object)
  : object :=
  match obj with
  | [] => [(key, v)]
  | (k, w) :: rest =>
      match arrayIndex k with
      | Some m =>
          if (m <? n)%N then (k, w) :: insertIndex n key v rest
          else (key, v) :: (k, w) :: rest
      | None => (key, v) :: (k, w) :: rest
      end
  end.

(** A new own property: an array-index key goes to its place among the
    index keys, any other key to the end. *)
Definition create (key : string) (v : value) (obj : object) : object :=
  match arrayIndex key with
  | Some n => insertIndex n key v obj
  | None => obj ++ [(key, v)]
  end.

(** What a search along a prototype chain finds under a key.  The methods
    that Object.prototype and Array.prototype hold are functions: a read
    yields a value that is not an object and an assignment creates an own
    property, both as for a key that is missing, so they count as
    [Missing]. *)
Inductive member : Type :=
| Data (v : value)
| ProtoAccessor
| Missing.

(** Object.prototype holds one accessor, under __proto__. *)
Definition ofObjectPrototype (key : string) : member :=
  if String.eqb key "__proto__" then ProtoAccessor else Missing.

(** The own properties of an array: its elements and its length. *)
Definition element (key : string) (items : list value) : option value :=
  if String.eqb key "length" then Some (VNumber (Z.of_nat (List.length items)))
  else match arrayIndex key with
       | Some n => nth_error items (N.to_nat n)
       | None => None
       end.

(** The search for [key] in [proto] and then along its own chain. *)
Fixpoint inherited (key : string) (proto : value) : member :=
  match proto with
  | VObject props =>
      match lookup key props with
      | Some w => Data w
      | None => ofObjectPrototype key
      end
  | VWithProto props parent =>
      match lookup key props with
      | Some w => Data w
      | None => inherited key parent
      end
  | VArray items =>
      match element key items with
      | Some w => Data w
      | None => ofObjectPrototype key
      end
  | _ => Missing
  end.

(** The object that [jsonMergePatch] builds: its own properties and its
    prototype, [None] for Object.prototype. *)
Record building : Type := { own : object; prototype : option value }.

Definition chain (result : building) (key : string) : member :=
  match prototype result with
  | None => ofObjectPrototype key
  | Some proto => inherited key proto
  end.

(** Object.prototype as a target of the merge: an object without
    enumerable properties, whose own prototype is null. *)
Definition objectPrototype : value := VWithProto [] VNull.

(** [result[key]]. *)
Definition get (key : string) (result : building) : value :=
  match lookup key (own result) with
  | Some w => w
  | None =>
      match chain result key with
      | Data w => w
      | ProtoAccessor =>
          match prototype result with
          | None => objectPrototype
          | Some proto => proto
          end
      | Missing => VUndefined
      end
  end.

(** What the setter of __proto__ accepts: an object or null. *)
Definition isPrototype (v : value) : bool :=
  match v with
  | VNull | VArray _ | VObject _ | VWithProto _ _ => true
  | _ => false
  end.

(** [result[key] = v].  An own property is overwritten.  Otherwise the
    prototype chain decides: under the accessor __proto__ the setter
    replaces the prototype when [v] is an object or null and does nothing
    for any other value, and no property is added; in every other case a
    new own property is created. *)
Definition assign (key : string) (v : value) (result : building) : building :=
  match lookup key (own result) with
  | Some _ =>
      {| own := update key v (own result); prototype := prototype result |}
  | None =>
      match chain result key with
      | ProtoAccessor =>
          if isPrototype v
          then {| own := own result; prototype := Some v |}
          else result
      | _ =>
          {| own := create key v (own result); prototype := prototype result |}
      end
  end.

(** [delete result[key]]. *)
Definition deleteProperty (key : string) (result : building) : building :=
  {| own := delete key (own result); prototype := prototype result |}.

Definition toValue (result : building) : value :=
  match prototype result with
  | None => VObject (own result)
  | Some proto => VWithProto (own result) proto
  end.

Definition isObject (val : value) : bool :=
  match val with
  | VObject _ | VWithProto _ _ => true
  | _ => false
  end.

(** [isObject(target) ? { ...target } : {}]: the own properties of the
    target, in a new object whose prototype is Object.prototype. *)
Definition startOf (target : value) : object :=
  match target with
  | VObject props | VWithProto props _ => props
  | _ => []
  end.

(** [jsonMergePatch(target, patch)].  The inner [loop] is the
    [for (const [key, value] of Object.entries(patch))] statement, with
    [result] passed along. *)
Fixpoint jsonMergePatch (target patch : value) {struct patch} : value :=
  match patch with
  | VObject entries | VWithProto entries _ =>
      toValue
        ((fix loop (entries : list (string * value)) (result : building)
            {struct entries} : building :=
            match entries with
            | [] => result
            | (key, VNull) :: rest => loop rest (deleteProperty key result)
            | (key, val) :: rest =>
                loop rest
                  (assign key (jsonMergePatch (get key result) val) result)
            end) entries {| own := startOf target; prototype := None |})
  | _ => patch
  end.


Lemma lookup_delete_same key obj : lookup key (delete key obj) = None.
Proof.
  induction obj as [|[k v] rest IH]; simpl; [reflexivity|].
  destruct (String.eqb k key) eqn:E; simpl; [exact IH|].
  now rewrite E.
Qed.

Lemma lookup_delete_other key key' obj :
  key' <> key -> lookup key' (delete key obj) = lookup key' obj.
Proof.
  intros Hne.
  induction obj as [|[k v] rest IH]; simpl; [reflexivity|].
  destruct (String.eqb k key) eqn:E; simpl.
  - apply String.eqb_eq in E. subst k.
    destruct (String.eqb key key') eqn:E'; [|exact IH].
    apply String.eqb_eq in E'. congruence.
  - now rewrite IH.
Qed.

(** Deleting keeps the other properties in their order. *)
Lemma delete_filter key obj :
  delete key obj = filter (fun kv => negb (String.eqb (fst kv) key)) obj.
Proof.
  induction obj as [|[k v] rest IH]; simpl; [reflexivity|].
  destruct (String.eqb k key); simpl; now rewrite IH.
Qed.

Example merge_replaces_primitive :
  jsonMergePatch (VObject [("a", VNumber 1); ("b", VNumber 2)])
                 (VObject [("a", VNumber 3)])
  = VObject [("a", VNumber 3); ("b", VNumber 2)].
Proof. reflexivity. Qed.

Example merge_nested :
  jsonMergePatch
    (VObject [("a", VObject [("b", VNumber 1); ("c", VNumber 2)])])
    (VObject [("a", VObject [("b", VNumber 3)])])
  = VObject [("a", VObject [("b", VNumber 3); ("c", VNumber 2)])].
Proof. reflexivity. Qed.

(** The example of RFC 7396 that the tests of the merge use. *)
Example merge_rfc7396 :
  jsonMergePatch
    (VObject
       [("title", VString "Goodbye!");
        ("author", VObject [("givenName", VString "John");
                            ("familyName", VString "Doe")]);
        ("tags", VArray [VString "example"; VString "sample"]);
        ("content", VString "This will be unchanged")])
    (VObject
       [("title", VString "Hello!");
        ("phoneNumber", VString "+01-123-456-7890");
        ("author", VObject [("familyName", VNull)]);
        ("tags", VArray [VString "example"])])
  = VObject
      [("title", VString "Hello!");
       ("author", VObject [("givenName", VString "John")]);
       ("tags", VArray [VString "example"]);
       ("content", VString "This will be unchanged");
       ("phoneNumber", VString "+01-123-456-7890")].
Proof. reflexivity. Qed.

(** A new array-index key takes its place before the larger index keys and
    the other keys, as the enumeration of the result shows it; "01" is no
    array index and goes to the end. *)
Example merge_index_keys :
  jsonMergePatch
    (VObject [("2", VNumber 0); ("b", VNumber 1)])
    (VObject [("1", VNumber 4); ("10", VNumber 2); ("a", VNumber 3);
              ("01", VNumber 5)])
  = VObject [("1", VNumber 4); ("2", VNumber 0); ("10", VNumber 2);
             ("b", VNumber 1); ("a", VNumber 3); ("01", VNumber 5)].
Proof. reflexivity. Qed.

(** A patch that names __proto__, as a parsed document can: the merge of
    Object.prototype with the patch's value becomes the prototype of the
    result, which gets no property of that name; a later key of the patch
    is then read through that prototype. *)
Example merge_proto_key :
  jsonMergePatch
    (VObject [("b", VNumber 1)])
    (VObject [("__proto__", VObject [("a", VObject [("x", VNumber 1)])]);
              ("a", VObject [("y", VNumber 2)])])
  = VWithProto
      [("b", VNumber 1); ("a", VObject [("x", VNumber 1); ("y", VNumber 2)])]
      (VObject [("a", VObject [("x", VNumber 1)])]).
Proof. reflexivity. Qed.

Example merge_proto_key_primitive :
  jsonMergePatch (VObject [("b", VNumber 1)])
                 (VObject [("__proto__", VString "x")])
  = VObject [("b", VNumber 1)].
Proof. reflexivity. Qed.

(** When the target holds __proto__ as a property of its own, as a parsed
    document can, the key is merged like any other. *)
Example merge_proto_key_own :
  jsonMergePatch (VObject [("__proto__", VObject [("a", VNumber 1)])])
                 (VObject [("__proto__", VObject [("b", VNumber 2)])])
  = VObject [("__proto__", VObject [("a", VNumber 1); ("b", VNumber 2)])].
Proof. reflexivity. Qed.

(** Claim C2.  For every object [target] and every key [k] present in it,
    merging the patch {k: null} gives an object without [k] in which every
    other key has the value it had in [target]. *)
Theorem jsonMergePatch_tombstone :
  forall (target : object) (k : string),
    lookup k target <> None ->
    exists result : object,
      jsonMergePatch (VObject target) (VObject [(k, VNull)]) = VObject result /\
      lookup k result = None /\
      (forall k', k' <> k -> lookup k' result = lookup k' target) /\
      result = filter (fun kv => negb (String.eqb (fst kv) k)) target.
Proof.
  intros target k _.
  exists (delete k target). simpl. repeat split.
  - apply lookup_delete_same.
  - intros k' Hne. now apply lookup_delete_other.
  - apply delete_filter.
Qed.

Lemma jsonMergePatch_tombstone_witness :
  lookup "a" [("a", VNumber 1); ("b", VNumber 2)] <> None /\
  exists result : object,
    jsonMergePatch (VObject [("a", VNumber 1); ("b", VNumber 2)])
                   (VObject [("a", VNull)]) = VObject result /\
    lookup "a" result = None /\
    (forall k', k' <> "a" ->
                lookup k' result = lookup k' [("a", VNumber 1); ("b", VNumber 2)]) /\
    result = filter (fun kv => negb (String.eqb (fst kv) "a"))
                    [("a", VNumber 1); ("b", VNumber 2)].
Proof.
  split; [simpl; discriminate|].
  apply (jsonMergePatch_tombstone [("a", VNumber 1); ("b", VNumber 2)] "a").
  simpl; discriminate.
Defined.

(** Claim C3.  For every target, a patch that is not an object (undefined,
    null, a boolean, a number, a string or an array) is returned as it is;
    and merging {a: [4, 5]} into {a: [1, 2, 3]} gives {a: [4, 5]}: the array
    is replaced, not merged by position. *)
Theorem jsonMergePatch_non_object_patch :
  (forall target patch : value,
      isObject patch = false -> jsonMergePatch target patch = patch) /\
  jsonMergePatch
    (VObject [("a", VArray [VNumber 1; VNumber 2; VNumber 3])])
    (VObject [("a", VArray [VNumber 4; VNumber 5])])
  = VObject [("a", VArray [VNumber 4; VNumber 5])].
Proof.
  split; [|reflexivity].
  intros target patch H.
  destruct patch; simpl in *; try reflexivity; discriminate.
Qed.

Lemma jsonMergePatch_non_object_patch_witness :
  jsonMergePatch (VObject [("a", VNumber 1)]) (VArray [VString "x"; VNull])
  = VArray [VString "x"; VNull].
Proof.
  apply (proj1 jsonMergePatch_non_object_patch
               (VObject [("a", VNumber 1)]) (VArray [VString "x"; VNull])).
  reflexivity.
Defined.

(** *** The merge, property by property *)

(** One turn of the loop of [jsonMergePatch]. *)
Definition mergeStep (key : string) (val : value) (result : building)
  : building :=
  match val with
  | VNull => deleteProperty key result
  | _ => assign key (jsonMergePatch (get key result) val) result
  end.

(** The loop of [jsonMergePatch], on its own. *)
Fixpoint mergeEntries (entries : list (string * value)) (result : building)
  : building :=
  match entries with
  | [] => result
  | (key, VNull) :: rest => mergeEntries rest (deleteProperty key result)
  | (key, val) :: rest =>
      mergeEntries rest
        (assign key (jsonMergePatch (get key result) val) result)
  end.

(** No key occurs twice in an object of the value, at any depth outside
    arrays: what every parsed document satisfies. *)
Fixpoint keysUnique (v : value) : Prop :=
  match v with
  | VObject props | VWithProto props _ =>
      NoDup (map fst props)
      /\ (fix each (props : list (string * value)) : Prop :=
            match props with
            | [] => True
            | (_, val) :: rest => keysUnique val /\ each rest
            end) props
  | _ => True
  end.

Fixpoint size (v : value) : nat :=
  match v with
  | VObject props | VWithProto props _ =>
      S ((fix sum (props : list (string * value)) : nat :=
            match props with
            | [] => 0
            | (_, val) :: rest => size val + sum rest
            end) props)
  | _ => 1
  end.

Lemma jsonMergePatch_object target entries :
  jsonMergePatch target (VObject entries)
  = toValue (mergeEntries entries
               {| own := startOf target; prototype := None |}).
Proof.
  reflexivity.
Qed.

Lemma jsonMergePatch_entries target patch :
  isObject patch = true ->
  jsonMergePatch target patch
  = toValue (mergeEntries (startOf patch)
               {| own := startOf target; prototype := None |}).
Proof.
  destruct patch; try discriminate; reflexivity.
Qed.

Lemma mergeEntries_cons key val rest result :
  mergeEntries ((key, val) :: rest) result
  = mergeEntries rest (mergeStep key val result).
Proof.
  destruct val; reflexivity.
Qed.

Lemma startOf_toValue result : startOf (toValue result) = own result.
Proof.
  destruct result as [props [proto|]]; reflexivity.
Qed.

Lemma lookup_update_same key v w obj :
  lookup key obj = Some w -> lookup key (update key v obj) = Some v.
Proof.
  induction obj as [|[k u] rest IH]; simpl; [discriminate|].
  destruct (String.eqb k key) eqn:E; simpl; rewrite E; auto.
Qed.

Lemma lookup_update_other key key' v obj :
  key' <> key -> lookup key' (update key v obj) = lookup key' obj.
Proof.
  intros Hne.
  induction obj as [|[k w] rest IH]; simpl; [reflexivity|].
  destruct (String.eqb k key) eqn:E; simpl.
  - apply String.eqb_eq in E. subst k.
    destruct (String.eqb key key') eqn:E'; [|reflexivity].
    apply String.eqb_eq in E'. congruence.
  - now rewrite IH.
Qed.

Lemma update_present key v obj :
  lookup key obj = Some v -> update key v obj = obj.
Proof.
  induction obj as [|[k w] rest IH]; simpl; [reflexivity|].
  destruct (String.eqb k key) eqn:E.
  - intros H. apply String.eqb_eq in E. now inversion H.
  - intros H. now rewrite IH.
Qed.

Lemma delete_absent key obj : lookup key obj = None -> delete key obj = obj.
Proof.
  induction obj as [|[k v] rest IH]; simpl; [reflexivity|].
  destruct (String.eqb k key); [discriminate|].
  intros H. now rewrite IH.
Qed.

Lemma lookup_insertIndex_same n key v obj :
  arrayIndex key = Some n -> lookup key (insertIndex n key v obj) = Some v.
Proof.
  intros Hkey.
  induction obj as [|[k w] rest IH]; cbn [insertIndex lookup].
  - now rewrite String.eqb_refl.
  - destruct (arrayIndex k) as [m|] eqn:Ek.
    + destruct (m <? n)%N eqn:Elt; cbn [lookup].
      * destruct (String.eqb k key) eqn:E; [|exact IH].
        apply String.eqb_eq in E. subst k.
        rewrite Hkey in Ek. inversion Ek; subst m.
        rewrite N.ltb_irrefl in Elt. discriminate.
      * now rewrite String.eqb_refl.
    + cbn [lookup]. now rewrite String.eqb_refl.
Qed.

Lemma lookup_insertIndex_other n key key' v obj :
  key' <> key -> lookup key' (insertIndex n key v obj) = lookup key' obj.
Proof.
  intros Hne.
  assert (E : String.eqb key key' = false)
    by (apply String.eqb_neq; congruence).
  induction obj as [|[k w] rest IH]; cbn [insertIndex lookup].
  - now rewrite E.
  - destruct (arrayIndex k) as [m|]; [destruct (m <? n)%N|];
      cbn [lookup]; rewrite ?E, ?IH; reflexivity.
Qed.

Lemma lookup_last_same key v obj :
  lookup key obj = None -> lookup key (obj ++ [(key, v)]) = Some v.
Proof.
  induction obj as [|[k w] rest IH]; simpl.
  - now rewrite String.eqb_refl.
  - destruct (String.eqb k key); [discriminate | exact IH].
Qed.

Lemma lookup_last_other key key' v obj :
  key' <> key -> lookup key' (obj ++ [(key, v)]) = lookup key' obj.
Proof.
  intros Hne.
  induction obj as [|[k w] rest IH]; simpl.
  - destruct (String.eqb key key') eqn:E; [|reflexivity].
    apply String.eqb_eq in E. congruence.
  - now rewrite IH.
Qed.

Lemma lookup_create_same key v obj :
  lookup key obj = None -> lookup key (create key v obj) = Some v.
Proof.
  intros Hnone. unfold create.
  destruct (arrayIndex key) as [n|] eqn:E.
  - now apply lookup_insertIndex_same.
  - now apply lookup_last_same.
Qed.

Lemma lookup_create_other key key' v obj :
  key' <> key -> lookup key' (create key v obj) = lookup key' obj.
Proof.
  intros Hne. unfold create.
  destruct (arrayIndex key) as [n|].
  - now apply lookup_insertIndex_other.
  - now apply lookup_last_other.
Qed.

Lemma lookup_none_not_in key (entries : list (string * value)) :
  ~ In key (map fst entries) -> lookup key entries = None.
Proof.
  induction entries as [|[k v] rest IH]; simpl; intros Hnot; [reflexivity|].
  destruct (String.eqb k key) eqn:E.
  - apply String.eqb_eq in E. tauto.
  - apply IH. tauto.
Qed.

(** Only the key __proto__ reaches the accessor. *)
Lemma inherited_accessor key proto :
  inherited key proto = ProtoAccessor -> key = "__proto__".
Proof.
  assert (Hobj : ofObjectPrototype key = ProtoAccessor -> key = "__proto__").
  { unfold ofObjectPrototype.
    destruct (String.eqb key "__proto__") eqn:E; [|discriminate].
    intros _. now apply String.eqb_eq. }
  induction proto as [| | | | |items|props|props parent IH];
    cbn [inherited]; try discriminate.
  - destruct (element key items); [discriminate | exact Hobj].
  - destruct (lookup key props); [discriminate | exact Hobj].
  - destruct (lookup key props); [discriminate | exact IH].
Qed.

Lemma chain_accessor result key :
  chain result key = ProtoAccessor -> key = "__proto__".
Proof.
  unfold chain. destruct (prototype result) as [proto|].
  - apply inherited_accessor.
  - unfold ofObjectPrototype.
    destruct (String.eqb key "__proto__") eqn:E; [|discriminate].
    intros _. now apply String.eqb_eq.
Qed.

(** What an assignment does to the own properties and to the prototype,
    case by case. *)
Lemma assign_cases key v result :
  (exists w, lookup key (own result) = Some w /\
             assign key v result
             = {| own := update key v (own result);
                  prototype := prototype result |}) \/
  (lookup key (own result) = None /\ chain result key = ProtoAccessor /\
   key = "__proto__" /\
   assign key v result
   = {| own := own result;
        prototype := if isPrototype v then Some v else prototype result |}) \/
  (lookup key (own result) = None /\ chain result key <> ProtoAccessor /\
   assign key v result
   = {| own := create key v (own result); prototype := prototype result |}).
Proof.
  unfold assign.
  destruct (lookup key (own result)) as [w|] eqn:Eown.
  - left. now exists w.
  - right. destruct (chain result key) eqn:Echain.
    + right. repeat split; discriminate || reflexivity.
    + left. repeat split; try reflexivity.
      * now apply (chain_accessor result).
      * destruct (isPrototype v); [reflexivity|].
        now destruct result.
    + right. repeat split; discriminate || reflexivity.
Qed.

Lemma own_assign_other key key' v result :
  key' <> key ->
  lookup key' (own (assign key v result)) = lookup key' (own result).
Proof.
  intros Hne.
  destruct (assign_cases key v result)
    as [(w & _ & ->) | [(_ & _ & _ & ->) | (_ & _ & ->)]]; cbn [own].
  - now apply lookup_update_other.
  - reflexivity.
  - now apply lookup_create_other.
Qed.

Lemma own_mergeStep_other key key' val result :
  key' <> key ->
  lookup key' (own (mergeStep key val result)) = lookup key' (own result).
Proof.
  intros Hne.
  destruct val; cbn [mergeStep];
    first [ now apply lookup_delete_other | now apply own_assign_other ].
Qed.

(** A key the patch does not name keeps its binding through the loop. *)
Lemma mergeEntries_untouched key entries result :
  ~ In key (map fst entries) ->
  lookup key (own (mergeEntries entries result)) = lookup key (own result).
Proof.
  revert result.
  induction entries as [|[k v] rest IH]; intros result Hnot; [reflexivity|].
  simpl in Hnot.
  assert (Hk : key <> k) by (intros ->; tauto).
  assert (Hrest : ~ In key (map fst rest)) by tauto.
  rewrite mergeEntries_cons, IH by exact Hrest.
  now apply own_mergeStep_other.
Qed.

(** A patch that does not name __proto__ leaves the prototype alone. *)
Lemma mergeEntries_prototype entries result :
  ~ In "__proto__" (map fst entries) ->
  prototype (mergeEntries entries result) = prototype result.
Proof.
  revert result.
  induction entries as [|[k v] rest IH]; intros result Hnot; [reflexivity|].
  simpl in Hnot.
  rewrite mergeEntries_cons, IH by tauto.
  destruct v; cbn [mergeStep]; try reflexivity;
    match goal with
    | |- prototype (assign ?key ?x ?r) = _ =>
        destruct (assign_cases key x r)
          as [(w & _ & ->) | [(_ & _ & Hkey & _) | (_ & _ & ->)]];
        [reflexivity | subst; tauto | reflexivity]
    end.
Qed.


Lemma prototype_mergeStep key val result :
  key <> "__proto__" ->
  prototype (mergeStep key val result) = prototype result.
Proof.
  intros Hne.
  destruct val; cbn [mergeStep]; try reflexivity;
    match goal with
    | |- prototype (assign ?key ?x ?r) = _ =>
        destruct (assign_cases key x r)
          as [(w & _ & ->) | [(_ & _ & Hkey & _) | (_ & _ & ->)]];
        [reflexivity | subst; tauto | reflexivity]
    end.
Qed.

(** Where the setter of __proto__ is out of reach, a read sees the own
    properties only and an assignment sets an own property. *)
Lemma mergeStep_plain key val result :
  prototype result = None ->
  key <> "__proto__" \/ lookup key (own result) <> None ->
  val <> VNull ->
  prototype (mergeStep key val result) = None /\
  lookup key (own (mergeStep key val result))
  = Some (jsonMergePatch (prop key (own result)) val).
Proof.
  intros Hproto Hkey Hval.
  assert (Hget : get key result = prop key (own result)).
  { unfold get, prop, chain. rewrite Hproto.
    destruct (lookup key (own result)); [reflexivity|].
    unfold ofObjectPrototype.
    destruct (String.eqb key "__proto__") eqn:E; [|reflexivity].
    apply String.eqb_eq in E. destruct Hkey; congruence. }
  assert (Hstep : mergeStep key val result
                  = assign key (jsonMergePatch (prop key (own result)) val)
                      result)
    by (rewrite <- Hget; destruct val; try reflexivity; congruence).
  rewrite Hstep.
  destruct (assign_cases key (jsonMergePatch (prop key (own result)) val)
              result)
    as [(w & Hw & ->) | [(Hnone & _ & Hk & _) | (Hnone & _ & ->)]];
    cbn [own prototype].
  - split; [exact Hproto | now apply (lookup_update_same key _ w)].
  - destruct Hkey; congruence.
  - split; [exact Hproto | now apply lookup_create_same].
Qed.

(** What the merged object holds under each key, when the setter of
    __proto__ is out of reach. *)
Lemma mergeEntries_plain entries :
  forall result,
    NoDup (map fst entries) ->
    prototype result = None ->
    lookup "__proto__" entries = None
    \/ lookup "__proto__" entries = Some VNull
    \/ lookup "__proto__" (own result) <> None ->
    prototype (mergeEntries entries result) = None /\
    forall key,
      lookup key (own (mergeEntries entries result))
      = match lookup key entries with
        | Some VNull => None
        | Some val => Some (jsonMergePatch (prop key (own result)) val)
        | None => lookup key (own result)
        end.
Proof.
  induction entries as [|[k v] rest IH]; intros result Hnodup Hproto Hreach.
  - split; [exact Hproto | reflexivity].
  - inversion Hnodup as [|? ? Hnotin Hrest]; subst.
    rewrite mergeEntries_cons.
    assert (Hrestnone : k = "__proto__" -> lookup "__proto__" rest = None)
      by (intros <-; now apply lookup_none_not_in).
    cbn [lookup] in Hreach.
    assert (Hnull : v = VNull
                    \/ v <> VNull
                       /\ (k <> "__proto__" \/ lookup k (own result) <> None)).
    { destruct (String.eqb k "__proto__") eqn:E.
      - apply String.eqb_eq in E.
        destruct Hreach as [H | [H | H]].
        + discriminate.
        + left. now inversion H.
        + destruct v; first [ now left | right; split;
                                [discriminate | right; now subst k] ].
      - apply String.eqb_neq in E.
        destruct v; first [ now left | right; split;
                              [discriminate | now left] ]. }
    assert (Hproto' : prototype (mergeStep k v result) = None).
    { destruct Hnull as [-> | [Hv Hk]]; [exact Hproto|].
      now apply mergeStep_plain. }
    assert (Hreach' :
              lookup "__proto__" rest = None
              \/ lookup "__proto__" rest = Some VNull
              \/ lookup "__proto__" (own (mergeStep k v result)) <> None).
    { destruct (String.eqb k "__proto__") eqn:E.
      - apply String.eqb_eq in E. left. now apply Hrestnone.
      - apply String.eqb_neq in E.
        destruct Hreach as [H | [H | H]]; [now left | now (right; left) |].
        right; right. rewrite own_mergeStep_other by congruence. exact H. }
    destruct (IH _ Hrest Hproto' Hreach') as [Hfinal Hkeys].
    split; [exact Hfinal|].
    intros key. rewrite Hkeys. cbn [lookup].
    destruct (String.eqb k key) eqn:E.
    + apply String.eqb_eq in E. subst key.
      rewrite (lookup_none_not_in k rest Hnotin).
      destruct Hnull as [-> | [Hv Hk]].
      * apply lookup_delete_same.
      * destruct (mergeStep_plain k v result Hproto Hk Hv) as [_ ->].
        destruct v; congruence.
    + apply String.eqb_neq in E.
      assert (Hother : lookup key (own (mergeStep k v result))
                       = lookup key (own result))
        by (apply own_mergeStep_other; congruence).
      unfold prop. rewrite Hother. reflexivity.
Qed.

(** What becomes of the prototype when the patch names __proto__ and the
    setter is reached. *)
Lemma mergeEntries_proto entries val :
  forall result,
    NoDup (map fst entries) ->
    prototype result = None ->
    lookup "__proto__" entries = Some val ->
    val <> VNull ->
    lookup "__proto__" (own result) = None ->
    prototype (mergeEntries entries result)
    = (if isPrototype (jsonMergePatch objectPrototype val)
       then Some (jsonMergePatch objectPrototype val)
       else None)
    /\ lookup "__proto__" (own (mergeEntries entries result)) = None.
Proof.
  induction entries as [|[k v] rest IH];
    intros result Hnodup Hproto Hnamed Hval Hown; [discriminate|].
  inversion Hnodup as [|? ? Hnotin Hrest]; subst.
  rewrite mergeEntries_cons. cbn [lookup] in Hnamed.
  destruct (String.eqb k "__proto__") eqn:E.
  - apply String.eqb_eq in E. subst k. inversion Hnamed; subst v.
    rewrite mergeEntries_prototype, mergeEntries_untouched by exact Hnotin.
    assert (Hget : get "__proto__" result = objectPrototype)
      by (unfold get, chain; rewrite Hown, Hproto; reflexivity).
    assert (Hstep : mergeStep "__proto__" val result
                    = assign "__proto__"
                        (jsonMergePatch objectPrototype val) result)
      by (rewrite <- Hget; destruct val; try reflexivity; congruence).
    rewrite Hstep.
    destruct (assign_cases "__proto__" (jsonMergePatch objectPrototype val)
                result)
      as [(w & Hw & _) | [(_ & _ & _ & ->) | (_ & Hchain & _)]].
    + congruence.
    + cbn [own prototype]. rewrite Hproto. split; [reflexivity | exact Hown].
    + exfalso. apply Hchain. unfold chain. rewrite Hproto. reflexivity.
  - apply String.eqb_neq in E.
    apply IH; try assumption.
    + rewrite prototype_mergeStep by exact E. exact Hproto.
    + rewrite own_mergeStep_other by congruence. exact Hown.
Qed.

(** Property X2.  For a patch that is an object whose keys are all
    different.  When the patch does not name __proto__, or sets it to
    null, or the target holds __proto__ as a property of its own, the
    result is an object with the usual prototype, and under every key it
    holds: for a key the patch sets to null, nothing; for a key the patch
    sets to another value, the merge of the target's value (undefined when
    the target has none or is not an object) with the patch's value; for a
    key the patch does not name, what the target holds.  When the patch
    sets __proto__ to another value and the target does not hold that key,
    the result gets no property __proto__: the merge of Object.prototype
    with the patch's value becomes the prototype of the result when it is
    an object or an array, and is dropped otherwise; the keys the patch does
    not name hold what the target holds. *)
Theorem jsonMergePatch_by_key :
  forall (target : value) (entries : list (string * value)),
    NoDup (map fst entries) ->
    (lookup "__proto__" entries = None
     \/ lookup "__proto__" entries = Some VNull
     \/ lookup "__proto__" (startOf target) <> None ->
     exists result : object,
       jsonMergePatch target (VObject entries) = VObject result /\
       forall key : string,
         lookup key result
         = match lookup key entries with
           | Some VNull => None
           | Some val => Some (jsonMergePatch (prop key (startOf target)) val)
           | None => lookup key (startOf target)
           end) /\
    (forall val : value,
        lookup "__proto__" entries = Some val ->
        val <> VNull ->
        lookup "__proto__" (startOf target) = None ->
        exists result : object,
          jsonMergePatch target (VObject entries)
          = (if isPrototype (jsonMergePatch objectPrototype val)
             then VWithProto result (jsonMergePatch objectPrototype val)
             else VObject result) /\
          lookup "__proto__" result = None /\
          forall key : string,
            lookup key entries = None ->
            lookup key result = lookup key (startOf target)).
Proof.
  intros target entries Hnodup.
  rewrite jsonMergePatch_object.
  set (start := {| own := startOf target; prototype := None |}).
  split.
  - intros Hreach.
    destruct (mergeEntries_plain entries start Hnodup eq_refl Hreach)
      as [Hproto Hkeys].
    exists (own (mergeEntries entries start)).
    unfold toValue. rewrite Hproto. split; [reflexivity | exact Hkeys].
  - intros val Hnamed Hval Hown.
    destruct (mergeEntries_proto entries val start Hnodup eq_refl Hnamed
                Hval Hown) as [Hproto Hnone].
    exists (own (mergeEntries entries start)).
    unfold toValue. rewrite Hproto. repeat split.
    + now destruct (isPrototype (jsonMergePatch objectPrototype val)).
    + exact Hnone.
    + intros key Hkey. apply mergeEntries_untouched.
      intros Hin. apply in_map_iff in Hin as [[k v] [Hk Hin]].
      cbn [fst] in Hk. subst k.
      clear - Hkey Hin.
      induction entries as [|[k w] rest IH]; [exact Hin|].
      cbn [lookup] in Hkey.
      destruct (String.eqb k key) eqn:E; [discriminate|].
      destruct Hin as [Hin | Hin]; [|now apply IH].
      inversion Hin; subst. now rewrite String.eqb_refl in E.
Qed.

Lemma jsonMergePatch_by_key_witness :
  (exists result : object,
      jsonMergePatch
        (VObject [("a", VObject [("b", VNumber 1)]); ("c", VNumber 2)])
        (VObject [("a", VObject [("d", VNull)]); ("c", VNull);
                  ("e", VString "x")])
      = VObject result /\
      forall key : string,
        lookup key result
        = match lookup key [("a", VObject [("d", VNull)]); ("c", VNull);
                            ("e", VString "x")] with
          | Some VNull => None
          | Some val =>
              Some (jsonMergePatch
                      (prop key
                         (startOf
                            (VObject [("a", VObject [("b", VNumber 1)]);
                                      ("c", VNumber 2)])))
                      val)
          | None =>
              lookup key
                (startOf (VObject [("a", VObject [("b", VNumber 1)]);
                                   ("c", VNumber 2)]))
          end) /\
  (exists result : object,
      jsonMergePatch
        (VObject [("c", VNumber 2)])
        (VObject [("__proto__", VObject [("x", VNumber 1)])])
      = (if isPrototype
              (jsonMergePatch objectPrototype (VObject [("x", VNumber 1)]))
         then VWithProto result
                (jsonMergePatch objectPrototype (VObject [("x", VNumber 1)]))
         else VObject result) /\
      lookup "__proto__" result = None /\
      forall key : string,
        lookup key [("__proto__", VObject [("x", VNumber 1)])] = None ->
        lookup key result = lookup key (startOf (VObject [("c", VNumber 2)]))).
Proof.
  split.
  - apply (jsonMergePatch_by_key
             (VObject [("a", VObject [("b", VNumber 1)]); ("c", VNumber 2)])
             [("a", VObject [("d", VNull)]); ("c", VNull);
              ("e", VString "x")]).
    + repeat constructor; simpl; intuition discriminate.
    + left. reflexivity.
  - apply (jsonMergePatch_by_key
             (VObject [("c", VNumber 2)])
             [("__proto__", VObject [("x", VNumber 1)])]).
    + repeat constructor; simpl; tauto.
    + reflexivity.
    + discriminate.
    + reflexivity.
Defined.

(** *** Applying a patch twice *)

Lemma keysUnique_object props :
  keysUnique (VObject props) <->
  NoDup (map fst props) /\ Forall (fun kv => keysUnique (snd kv)) props.
Proof.
  cbn [keysUnique].
  assert (Heach :
    (fix each (props : list (string * value)) : Prop :=
       match props with
       | [] => True
       | (_, val) :: rest => keysUnique val /\ each rest
       end) props
    <-> Forall (fun kv => keysUnique (snd kv)) props).
  { induction props as [|[k v] rest IH].
    - split; [constructor | trivial].
    - split.
      + intros [Hv Hrest]. constructor; [exact Hv | now apply IH].
      + intros H. inversion H; subst. split; [assumption | now apply IH]. }
  tauto.
Qed.

Lemma keysUnique_entries patch :
  isObject patch = true ->
  keysUnique patch -> keysUnique (VObject (startOf patch)).
Proof.
  destruct patch; try discriminate; intros _ H; exact H.
Qed.

Lemma size_member key val props :
  In (key, val) props -> size val < size (VObject props).
Proof.
  cbn [size].
  induction props as [|[k v] rest IH]; simpl; [tauto|].
  intros [H|H].
  - inversion H; subst. lia.
  - specialize (IH H). lia.
Qed.

Lemma size_entries patch :
  isObject patch = true -> size (VObject (startOf patch)) = size patch.
Proof.
  destruct patch; try discriminate; reflexivity.
Qed.

(** A turn of the loop that has been made once is made again without
    effect on the own properties, and with the same effect on the
    prototype. *)
Lemma mergeStep_again key val result props :
  (forall target,
      jsonMergePatch (jsonMergePatch target val) val
      = jsonMergePatch target val) ->
  lookup key props = lookup key (own (mergeStep key val result)) ->
  mergeStep key val {| own := props; prototype := prototype result |}
  = {| own := props; prototype := prototype (mergeStep key val result) |}.
Proof.
  intros Hval Hprops.
  destruct (match val with VNull => true | _ => false end) eqn:Enull.
  - destruct val; try discriminate. cbn [mergeStep] in *.
    unfold deleteProperty in *. cbn [own prototype] in *.
    rewrite lookup_delete_same in Hprops.
    now rewrite delete_absent.
  - assert (Hstep : forall r, mergeStep key val r
                              = assign key (jsonMergePatch (get key r) val) r)
      by (intros r; destruct val; try reflexivity; discriminate).
    rewrite !Hstep in *.
    set (x := jsonMergePatch (get key result) val) in *.
    assert (Hsecond :
              forall r, lookup key (own r) = Some x ->
                        assign key (jsonMergePatch (get key r) val) r = r).
    { intros r Hr.
      assert (Hget : get key r = x) by (unfold get; now rewrite Hr).
      rewrite Hget. unfold x at 1. rewrite Hval. fold x.
      unfold assign. rewrite Hr.
      rewrite update_present by exact Hr. now destruct r. }
    destruct (assign_cases key x result)
      as [(w & Hw & Hassign) | [(Hnone & Hchain & Hk & Hassign)
                               | (Hnone & Hchain & Hassign)]];
      rewrite Hassign in *; cbn [own prototype] in *.
    + rewrite (lookup_update_same key x w) in Hprops by exact Hw.
      now apply Hsecond.
    + rewrite Hnone in Hprops.
      assert (Hget : get key {| own := props; prototype := prototype result |}
                     = get key result).
      { unfold get. cbn [own]. rewrite Hprops, Hnone. reflexivity. }
      rewrite Hget. fold x.
      unfold assign. cbn [own]. rewrite Hprops.
      change (chain {| own := props; prototype := prototype result |} key)
        with (chain result key).
      rewrite Hchain. now destruct (isPrototype x).
    + rewrite lookup_create_same in Hprops by exact Hnone.
      now apply Hsecond.
Qed.

(** When each value of the patch is applied twice without effect, so is the
    whole loop: started again from the properties it has produced, it
    leaves them as they are and sets the same prototype. *)
Lemma mergeEntries_twice entries :
  NoDup (map fst entries) ->
  Forall (fun kv => forall target,
              jsonMergePatch (jsonMergePatch target (snd kv)) (snd kv)
              = jsonMergePatch target (snd kv)) entries ->
  forall result,
    mergeEntries entries
      {| own := own (mergeEntries entries result);
         prototype := prototype result |}
    = mergeEntries entries result.
Proof.
  induction entries as [|[k v] rest IH]; intros Hnodup Hall result.
  - now destruct result.
  - inversion Hnodup as [|? ? Hnotin Hrest]; subst.
    inversion Hall as [|? ? Hv Hall']; subst. cbn [snd] in Hv.
    rewrite !mergeEntries_cons.
    rewrite mergeStep_again.
    + apply IH; assumption.
    + exact Hv.
    + now apply mergeEntries_untouched.
Qed.

Lemma jsonMergePatch_twice_sized n :
  forall patch : value,
    size patch <= n -> keysUnique patch ->
    forall target : value,
      jsonMergePatch (jsonMergePatch target patch) patch
      = jsonMergePatch target patch.
Proof.
  induction n as [|n IH]; intros patch Hsize Hunique target.
  - destruct patch; simpl in Hsize; lia.
  - destruct (isObject patch) eqn:Eobj;
      [|destruct patch; try discriminate; reflexivity].
    rewrite !(jsonMergePatch_entries _ patch Eobj), startOf_toValue.
    f_equal.
    apply keysUnique_entries in Hunique; [|exact Eobj].
    apply keysUnique_object in Hunique as [Hnodup Heach].
    apply (mergeEntries_twice (startOf patch) Hnodup).
    apply Forall_forall. intros [k v] Hin target'. cbn [snd].
    apply IH.
    + pose proof (size_member k v _ Hin).
      rewrite size_entries in H by exact Eobj. lia.
    + rewrite Forall_forall in Heach. exact (Heach (k, v) Hin).
Qed.

(** Property X3.  Applying the same patch a second time changes nothing,
    for every target and every patch in which no object has a key twice. *)
Theorem jsonMergePatch_idempotent :
  forall target patch : value,
    keysUnique patch ->
    jsonMergePatch (jsonMergePatch target patch) patch
    = jsonMergePatch target patch.
Proof.
  intros target patch Hunique.
  now apply (jsonMergePatch_twice_sized (size patch)).
Qed.

Lemma jsonMergePatch_idempotent_witness :
  jsonMergePatch
    (jsonMergePatch
       (VObject [("a", VObject [("b", VNumber 1); ("c", VNumber 2)]);
                 ("t", VArray [VNumber 1])])
       (VObject [("a", VObject [("b", VNull); ("d", VString "x")]);
                 ("t", VArray [VNumber 4; VNumber 5])]))
    (VObject [("a", VObject [("b", VNull); ("d", VString "x")]);
              ("t", VArray [VNumber 4; VNumber 5])])
  = jsonMergePatch
      (VObject [("a", VObject [("b", VNumber 1); ("c", VNumber 2)]);
                ("t", VArray [VNumber 1])])
      (VObject [("a", VObject [("b", VNull); ("d", VString "x")]);
                ("t", VArray [VNumber 4; VNumber 5])]).
Proof.
  apply (jsonMergePatch_idempotent
           (VObject [("a", VObject [("b", VNumber 1); ("c", VNumber 2)]);
                     ("t", VArray [VNumber 1])])
           (VObject [("a", VObject [("b", VNull); ("d", VString "x")]);
                     ("t", VArray [VNumber 4; VNumber 5])])).
  simpl. repeat split; repeat constructor; simpl; intuition discriminate.
Defined.

End Merge.

(* ================================================================== *)
(** ** src/types.ts *)
(* ================================================================== *)

Module Types.
Import Text.

Record CapabilitiesConfig : Type := {
  general : option (list string);
  device : option (list string);
  restricted : option (list string)
}.

(** The interfaces of the extension declarations.  Each interface has a
    module of its own, so that the fields keep their names. *)
Module FileAssociation.
Record t : Type := {
  name : string;
  extensions : list string;
  description : option string
}.
End FileAssociation.

Module ProtocolHandler.
Record t : Type := { name : string; displayName : option string }.
End ProtocolHandler.

Module StartupTask.
Record t : Type := { enabled : bool; taskId : option string }.
End StartupTask.

Module ContextMenu.
Record t : Type := {
  name : string;
  fileTypes : list string;
  displayName : option string
}.
End ContextMenu.

Module BackgroundTask.
Inductive type : Type := timer | systemEvent | pushNotification.
Record t : Type := { name : string; type_ : type }.
End BackgroundTask.

Module AppExecutionAlias.
Record t : Type := { alias : string; displayName : option string }.
End AppExecutionAlias.

Module AppService.
Record t : Type := { name : string; serverName : option string }.
End AppService.

Module ToastActivation.
Inductive activationType_ : Type := foreground | background | protocol.
Record t : Type := { activationType : activationType_ }.
End ToastActivation.

Module AutoplayHandler.
Record t : Type := {
  verb : string;
  actionDisplayName : string;
  contentEvent : option string;
  deviceEvent : option string
}.
End AutoplayHandler.

Module PrintTaskSettings.
Record t : Type := { displayName : string }.
End PrintTaskSettings.

Module ThumbnailHandler.
Record t : Type := { clsid : string; fileTypes : list string }.
End ThumbnailHandler.

Module PreviewHandler.
Record t : Type := { clsid : string; fileTypes : list string }.
End PreviewHandler.

(** The [extensions] property of [BundleConfig]. *)
Module Extensions.
Record t : Type := {
  shareTarget : option bool;
  fileAssociations : option (list FileAssociation.t);
  protocolHandlers : option (list ProtocolHandler.t);
  startupTask : option StartupTask.t;
  contextMenus : option (list ContextMenu.t);
  backgroundTasks : option (list BackgroundTask.t);
  appExecutionAliases : option (list AppExecutionAlias.t);
  appServices : option (list AppService.t);
  toastActivation : option ToastActivation.t;
  autoplayHandlers : option (list AutoplayHandler.t);
  printTaskSettings : option PrintTaskSettings.t;
  thumbnailHandlers : option (list ThumbnailHandler.t);
  previewHandlers : option (list PreviewHandler.t)
}.

Definition none : t :=
  {| shareTarget := None; fileAssociations := None;
     protocolHandlers := None; startupTask := None; contextMenus := None;
     backgroundTasks := None; appExecutionAliases := None;
     appServices := None; toastActivation := None;
     autoplayHandlers := None; printTaskSettings := None;
     thumbnailHandlers := None; previewHandlers := None |}.
End Extensions.

Module ResourceIndex.
Record t : Type := { enabled : option bool; keepConfig : option bool }.
End ResourceIndex.

(** [pfx?: string | null]: [None] is both the missing and the null value,
  which the code does not tell apart. *)
Module Signing.
Record t : Type := { pfx : option string; pfxPassword : option string }.
End Signing.

Module TauriConfig.
Inductive resource : Type :=
| ResourcePath (path : string)
| ResourceMap (src target : string).

Record windows_ : Type := { certificateThumbprint : option string }.

Record bundle_ : Type := {
  icon : option (list string);
  shortDescription : option string;
  longDescription : option string;
  publisher : option string;
  resources : option (list resource);
  windows : option windows_
}.

Record t : Type := {
  productName : option string;
  version : option string;
  identifier : option string;
  bundle : option bundle_
}.
End TauriConfig.

(** [readBundleConfig] returns [JSON.parse(content) as BundleConfig]: the
  cast checks nothing, so beside the keys of the interface the object holds
  whatever other keys bundle.config.json has, here [otherKeys]. *)
Module BundleConfig.
Record t : Type := {
  publisher : option string;
  publisherDisplayName : option string;
  resourceIndex : option ResourceIndex.t;
  capabilities : option CapabilitiesConfig;
  extensions : option Extensions.t;
  signing : option Signing.t;
  otherKeys : Merge.object
}.
End BundleConfig.

(** [MergedConfig extends BundleConfig], with [publisher] and
  [publisherDisplayName] made mandatory. *)
Module MergedConfig.
Record t : Type := {
  publisher : string;
  publisherDisplayName : string;
  resourceIndex : option ResourceIndex.t;
  capabilities : option CapabilitiesConfig;
  extensions : option Extensions.t;
  signing : option Signing.t;
  displayName : string;
  version : string;
  description : string;
  identifier : string
}.
End MergedConfig.

Definition GENERAL_CAPABILITIES : list string :=
  [ "internetClient"; "internetClientServer"; "privateNetworkClientServer";
    "allJoyn"; "codeGeneration" ].

Definition DEVICE_CAPABILITIES : list string :=
  [ "webcam"; "microphone"; "location"; "proximity"; "bluetooth";
    "serialcommunication"; "usb"; "humaninterfacedevice"; "pointOfService";
    "lowLevelDevices"; "gazeInput"; "radios" ].

Definition RESTRICTED_CAPABILITIES : list string :=
  [ "broadFileSystemAccess"; "allowElevation"; "appCaptureSettings";
    "appDiagnostics"; "backgroundSpatialPerception"; "deviceUnlock";
    "expandedResources"; "extendedBackgroundTaskTime";
    "extendedExecutionBackgroundAudio"; "extendedExecutionCritical";
    "extendedExecutionUnconstrained"; "inputForegroundObservation";
    "locationHistory"; "locationSystem"; "networkingVpnProvider";
    "packageManagement"; "packageQuery"; "previewStore"; "systemManagement";
    "unvirtualizedResources"; "userSystemId" ].

Definition DEFAULT_CAPABILITIES : CapabilitiesConfig :=
  {| general := Some ["internetClient"]; device := None; restricted := None |}.

(** [validateCapabilities(config)]: [errors] is the array the three loops
    push to, in turn. *)
Definition validateCapabilities (config : CapabilitiesConfig) : list string :=
  let errors : list string := [] in
  let errors :=
    match general config with
    | Some caps =>
        fold_left
          (fun errors cap =>
             if negb (includes GENERAL_CAPABILITIES cap)
             then errors ++ [ ("Invalid general capability: " ++ dquote ++ cap
                              ++ dquote ++ ". Valid: "
                              ++ join ", " GENERAL_CAPABILITIES)%string ]
             else errors)
          caps errors
    | None => errors
    end in
  let errors :=
    match device config with
    | Some caps =>
        fold_left
          (fun errors cap =>
             if negb (includes DEVICE_CAPABILITIES cap)
             then errors ++ [ ("Invalid device capability: " ++ dquote ++ cap
                              ++ dquote ++ ". Valid: "
                              ++ join ", " DEVICE_CAPABILITIES)%string ]
             else errors)
          caps errors
    | None => errors
    end in
  let errors :=
    match restricted config with
    | Some caps =>
        fold_left
          (fun errors cap =>
             if negb (includes RESTRICTED_CAPABILITIES cap)
             then errors ++ [ ("Invalid restricted capability: " ++ dquote
                              ++ cap ++ dquote ++ ". Valid: "
                              ++ join ", " RESTRICTED_CAPABILITIES)%string ]
             else errors)
          caps errors
    | None => errors
    end in
  errors.

(** The specification's reading of the validator, to compare with the code:
    the tokens a category declares (none when the list is absent), and one
    message for each of them that is not in the category's vocabulary. *)
Definition declared (tokens : option (list string)) : list string :=
  match tokens with
  | Some caps => caps
  | None => []
  end.

Definition violationMessage (category : string) (valid : list string)
    (token : string) : string :=
  ("Invalid " ++ category ++ " capability: " ++ dquote ++ token ++ dquote
   ++ ". Valid: " ++ join ", " valid)%string.

Definition violations (category : string) (valid : list string)
    (tokens : option (list string)) : list string :=
  map (violationMessage category valid)
      (filter (fun token => negb (includes valid token)) (declared tokens)).

Definition allWhitelisted (valid : list string)
    (tokens : option (list string)) : bool :=
  forallb (includes valid) (declared tokens).

(** A push-if-invalid loop appends the messages of the invalid tokens, in
    the order of the tokens. *)
Lemma push_loop_spec (valid : list string) (message : string -> string)
    (caps errors : list string) :
  fold_left
    (fun errors cap =>
       if negb (includes valid cap) then errors ++ [message cap] else errors)
    caps errors
  = errors ++ map message (filter (fun cap => negb (includes valid cap)) caps).
Proof.
  revert errors.
  induction caps as [|cap caps IH]; intros errors; simpl.
  - now rewrite app_nil_r.
  - rewrite IH. destruct (negb (includes valid cap)); simpl.
    + now rewrite <- app_assoc.
    + reflexivity.
Qed.

Lemma violations_nil_iff category valid tokens :
  violations category valid tokens = [] <-> allWhitelisted valid tokens = true.
Proof.
  unfold violations, allWhitelisted.
  induction (declared tokens) as [|t ts IH]; simpl; [tauto|].
  destruct (includes valid t); simpl; [exact IH|].
  split; discriminate.
Qed.

Lemma validateCapabilities_by_category config :
  validateCapabilities config =
  violations "general" GENERAL_CAPABILITIES (general config)
  ++ violations "device" DEVICE_CAPABILITIES (device config)
  ++ violations "restricted" RESTRICTED_CAPABILITIES (restricted config).
Proof.
  unfold validateCapabilities, violations.
  destruct config as [g d r]; cbn [general device restricted].
  destruct g as [g|], d as [d|], r as [r|]; cbn [declared filter map];
    try rewrite (push_loop_spec RESTRICTED_CAPABILITIES
                   (violationMessage "restricted" RESTRICTED_CAPABILITIES));
    try rewrite (push_loop_spec DEVICE_CAPABILITIES
                   (violationMessage "device" DEVICE_CAPABILITIES));
    try rewrite (push_loop_spec GENERAL_CAPABILITIES
                   (violationMessage "general" GENERAL_CAPABILITIES));
    repeat rewrite app_nil_r; cbn [app];
    repeat rewrite <- app_assoc; reflexivity.
Qed.

(** Claim C5.  For every capabilities declaration the validator returns one
    message for each declared token that is not in its category's vocabulary,
    all of them and not only the first: the messages of general come first,
    then those of device, then those of restricted, each group in the order
    of declaration.  A message names the token and lists the whole vocabulary
    of the category.  The result is empty exactly when every declared token
    is in its vocabulary.  For {general: ["bad1"], device: ["bad2"]} there
    are two messages, the one of general first. *)
Theorem validateCapabilities_collects_all_violations :
  (forall config : CapabilitiesConfig,
      validateCapabilities config =
        violations "general" GENERAL_CAPABILITIES (general config)
        ++ violations "device" DEVICE_CAPABILITIES (device config)
        ++ violations "restricted" RESTRICTED_CAPABILITIES (restricted config)
      /\
      List.length (validateCapabilities config) =
        List.length (filter (fun t => negb (includes GENERAL_CAPABILITIES t))
                            (declared (general config)))
        + List.length (filter (fun t => negb (includes DEVICE_CAPABILITIES t))
                              (declared (device config)))
        + List.length (filter
                         (fun t => negb (includes RESTRICTED_CAPABILITIES t))
                         (declared (restricted config)))
      /\
      (validateCapabilities config = [] <->
       allWhitelisted GENERAL_CAPABILITIES (general config)
       && allWhitelisted DEVICE_CAPABILITIES (device config)
       && allWhitelisted RESTRICTED_CAPABILITIES (restricted config) = true))
  /\
  validateCapabilities
    {| general := Some ["bad1"]; device := Some ["bad2"]; restricted := None |}
  = [ ("Invalid general capability: " ++ dquote ++ "bad1" ++ dquote
       ++ ". Valid: internetClient, internetClientServer, "
       ++ "privateNetworkClientServer, allJoyn, codeGeneration")%string;
      ("Invalid device capability: " ++ dquote ++ "bad2" ++ dquote
       ++ ". Valid: webcam, microphone, location, proximity, bluetooth, "
       ++ "serialcommunication, usb, humaninterfacedevice, pointOfService, "
       ++ "lowLevelDevices, gazeInput, radios")%string ]
  /\
  validateCapabilities
    {| general := Some ["bad1"; "internetClient"; "bad3"];
       device := None;
       restricted := Some ["runFullTrust"] |}
  = [ violationMessage "general" GENERAL_CAPABILITIES "bad1";
      violationMessage "general" GENERAL_CAPABILITIES "bad3";
      violationMessage "restricted" RESTRICTED_CAPABILITIES "runFullTrust" ].
Proof.
  split; [|split; reflexivity].
  intros config.
  rewrite validateCapabilities_by_category.
  split; [reflexivity|]. split.
  - unfold violations. now rewrite !length_app, !length_map, Nat.add_assoc.
  - rewrite !andb_true_iff.
    rewrite <- (violations_nil_iff "general"), <- (violations_nil_iff "device"),
      <- (violations_nil_iff "restricted").
    split.
    + intros H. apply app_eq_nil in H as [Hg H].
      apply app_eq_nil in H as [Hd Hr]. tauto.
    + intros [[Hg Hd] Hr]. now rewrite Hg, Hd, Hr.
Qed.

Lemma includes_In arr x : includes arr x = true -> In x arr.
Proof.
  induction arr as [|y arr IH]; simpl; [discriminate|].
  intros H. apply orb_true_iff in H as [H|H].
  - left. now apply String.eqb_eq.
  - right. now apply IH.
Qed.

(** Property X19.  The three vocabularies have no token in common, so a
    token that is valid in one category is reported when it is declared
    under another; and runFullTrust, which the manifest always gets, is in
    none of them. *)
Theorem capability_vocabularies_disjoint :
  forall token : string,
    (includes GENERAL_CAPABILITIES token = true ->
     includes DEVICE_CAPABILITIES token = false /\
     includes RESTRICTED_CAPABILITIES token = false /\
     validateCapabilities
       {| general := None; device := Some [token]; restricted := None |}
     <> [] /\
     validateCapabilities
       {| general := None; device := None; restricted := Some [token] |}
     <> []) /\
    (includes DEVICE_CAPABILITIES token = true ->
     includes GENERAL_CAPABILITIES token = false /\
     includes RESTRICTED_CAPABILITIES token = false /\
     validateCapabilities
       {| general := Some [token]; device := None; restricted := None |}
     <> [] /\
     validateCapabilities
       {| general := None; device := None; restricted := Some [token] |}
     <> []) /\
    (includes RESTRICTED_CAPABILITIES token = true ->
     includes GENERAL_CAPABILITIES token = false /\
     includes DEVICE_CAPABILITIES token = false /\
     validateCapabilities
       {| general := Some [token]; device := None; restricted := None |}
     <> [] /\
     validateCapabilities
       {| general := None; device := Some [token]; restricted := None |}
     <> []) /\
    (token = "runFullTrust" ->
     includes GENERAL_CAPABILITIES token = false /\
     includes DEVICE_CAPABILITIES token = false /\
     includes RESTRICTED_CAPABILITIES token = false).
Proof.
  intros token.
  assert (Hcases : forall (vocabulary : list string) (P : string -> Prop),
             Forall P vocabulary ->
             includes vocabulary token = true -> P token).
  { intros vocabulary P Hall Hin. apply includes_In in Hin.
    rewrite Forall_forall in Hall. now apply Hall. }
  split; [|split; [|split]].
  - intros Hin. pattern token. apply (Hcases GENERAL_CAPABILITIES); [|exact Hin].
    repeat (constructor;
            [repeat split; first [reflexivity | discriminate]|]).
    constructor.
  - intros Hin. pattern token. apply (Hcases DEVICE_CAPABILITIES); [|exact Hin].
    repeat (constructor;
            [repeat split; first [reflexivity | discriminate]|]).
    constructor.
  - intros Hin. pattern token. apply (Hcases RESTRICTED_CAPABILITIES); [|exact Hin].
    repeat (constructor;
            [repeat split; first [reflexivity | discriminate]|]).
    constructor.
  - intros ->. repeat split.
Qed.

Lemma capability_vocabularies_disjoint_witness :
  includes DEVICE_CAPABILITIES "internetClient" = false /\
  includes RESTRICTED_CAPABILITIES "internetClient" = false /\
  validateCapabilities
    {| general := None; device := Some ["internetClient"];
       restricted := None |}
  <> [] /\
  validateCapabilities
    {| general := None; device := None;
       restricted := Some ["internetClient"] |}
  <> [].
Proof.
  apply (proj1 (capability_vocabularies_disjoint "internetClient")).
  reflexivity.
Defined.

End Types.

(* ================================================================== *)
(** ** src/core/manifest.ts *)
(* ================================================================== *)

Module Manifest.
Import Text Types.

(** [generateCapabilities(config)]: [caps] is the array of lines, joined by
    line feeds at the end. *)
Definition generateCapabilities (config : CapabilitiesConfig) : string :=
  let caps : list string := [] in
  let caps :=
    caps ++ [ ("    <rescap:Capability Name=" ++ dquote ++ "runFullTrust"
               ++ dquote ++ " />")%string ] in
  let caps :=
    match general config with
    | Some tokens =>
        fold_left
          (fun caps cap =>
             caps ++ [ ("    <Capability Name=" ++ dquote ++ cap ++ dquote
                        ++ " />")%string ])
          tokens caps
    | None => caps
    end in
  let caps :=
    match device config with
    | Some tokens =>
        fold_left
          (fun caps cap =>
             caps ++ [ ("    <DeviceCapability Name=" ++ dquote ++ cap
                        ++ dquote ++ " />")%string ])
          tokens caps
    | None => caps
    end in
  let caps :=
    match restricted config with
    | Some tokens =>
        fold_left
          (fun caps cap =>
             caps ++ [ ("    <rescap:Capability Name=" ++ dquote ++ cap
                        ++ dquote ++ " />")%string ])
          tokens caps
    | None => caps
    end in
  join newline caps.

(** The line that declares full trust. *)
Definition fullTrustLine : string :=
  ("    <rescap:Capability Name=" ++ dquote ++ "runFullTrust" ++ dquote
   ++ " />")%string.

(** A capabilities object that declares no token: each list is absent or
    empty. *)
Definition declaresNothing (config : CapabilitiesConfig) : bool :=
  match general config, device config, restricted config with
  | (None | Some []), (None | Some []), (None | Some []) => true
  | _, _, _ => false
  end.

(** [ToInt32]: the value wrapped into the signed 32-bit range. *)
Definition toInt32 (x : Z) : Z :=
  ((x + 2147483648) mod 4294967296 - 2147483648)%Z.

(** [x << n] and [x & y] on 32-bit integers. *)
Definition shiftLeft (x n : Z) : Z :=
  toInt32 (Z.shiftl (toInt32 x) (Z.land n 31)).

Definition bitAnd (x y : Z) : Z := Z.land (toInt32 x) (toInt32 y).

(** One turn of the hashing loop of [generateClsid]:
    [hash = (hash << 5) - hash + char; hash = hash & hash].  The subtraction
    and the addition are on numbers far below 2^53, where JavaScript's
    arithmetic is exact. *)
Definition hashStep (hash char : Z) : Z :=
  let hash := (shiftLeft hash 5 - hash + char)%Z in
  bitAnd hash hash.

(** The rest of [generateClsid], from the final [hash]. *)
Definition clsidOfHash (hash : Z) : string :=
  let hex := padStart 8 "0" (toString16 (Z.abs hash)) in
  let hex2 := padStart 8 "0" (toString16 (Z.abs (hash * 31))) in
  let hex3 := padStart 8 "0" (toString16 (Z.abs (hash * 37))) in
  let hex4 := padStart 12 "0" (toString16 (Z.abs (hash * 41))) in
  toUpperCase
    ("{" ++ slice 0 8 hex ++ "-" ++ slice 0 4 hex2 ++ "-" ++ slice 4 8 hex2
     ++ "-" ++ slice 0 4 hex3 ++ "-" ++ slice 0 12 hex4 ++ "}")%string.

(** [generateClsid] on the code units of the seed, whatever they are. *)
Definition generateClsidOfCodes (codes : list Z) : string :=
  clsidOfHash (fold_left hashStep codes 0%Z).

(** [generateClsid(seed)]. *)
Definition generateClsid (seed : string) : string :=
  generateClsidOfCodes (charCodes seed).

(** The shape {XXXXXXXX-XXXX-XXXX-XXXX-XXXXXXXXXXXX}: in the pattern an X
    stands for one upper-case digit of base 16, any other character for
    itself. *)
Definition CLSID_SHAPE : string := "{XXXXXXXX-XXXX-XXXX-XXXX-XXXXXXXXXXXX}".

Fixpoint hasShape (shape s : string) : bool :=
  match shape, s with
  | EmptyString, EmptyString => true
  | String p shape', String c s' =>
      (if Ascii.eqb p "X" then isUpperHex c else Ascii.eqb p c)
      && hasShape shape' s'
  | _, _ => false
  end.

(** What a call gives back: a value, or a thrown [Error] with its
    message. *)
Inductive outcome (A : Type) : Type :=
| Return (a : A)
| Throw (message : string).
Arguments Return {A} a.
Arguments Throw {A} message.

(** Modelled from the spec: src/utils/template.ts, where
    [replaceTemplateVariables] is defined, is not among the sources.  The
    spec (4.5) has it as "literal placeholder-token replacement (e.g.
    {{TOKEN}} style) across the full template text": here each variable in
    turn, in the order of the object's keys, has every {{KEY}} in the text
    replaced by its value. *)
Definition replaceTemplateVariables (template : string)
    (variables : list (string * string)) : string :=
  fold_left
    (fun result kv =>
       replaceAll ("{{" ++ fst kv ++ "}}")%string (snd kv) result)
    variables template.


(** [config.extensions?.field]. *)
Definition optionalField {A : Type} (extensions : option Extensions.t)
    (field : Extensions.t -> option A) : option A :=
  match extensions with
  | Some e => field e
  | None => None
  end.

(** A copy of [config] with another [capabilities] property. *)
Definition withCapabilities (config : MergedConfig.t)
    (caps : option CapabilitiesConfig) : MergedConfig.t :=
  {| MergedConfig.publisher := MergedConfig.publisher config;
     MergedConfig.publisherDisplayName :=
       MergedConfig.publisherDisplayName config;
     MergedConfig.resourceIndex := MergedConfig.resourceIndex config;
     MergedConfig.capabilities := caps;
     MergedConfig.extensions := MergedConfig.extensions config;
     MergedConfig.signing := MergedConfig.signing config;
     MergedConfig.displayName := MergedConfig.displayName config;
     MergedConfig.version := MergedConfig.version config;
     MergedConfig.description := MergedConfig.description config;
     MergedConfig.identifier := MergedConfig.identifier config |}.

Section Templates.

(** The files the generator reads.  [getExtensionTemplate name] is the text
    of templates/extensions/<name>.xml, which ships with the package;
    [readFile path] is the text of the file at [path], or [None] when
    [fs.existsSync] says there is none; [pathJoin] is [path.join]. *)
Variable getExtensionTemplate : string -> string.
Variable pathJoin : string -> string -> string.
Variable readFile : string -> option string.


(** [generateExtensions(config)]: [extensions] is the array the thirteen
    blocks push their fragments to, in turn. *)
Definition generateExtensions (config : MergedConfig.t) : string :=
  let declaredExtensions := MergedConfig.extensions config in
  let extensions : list string := [] in
  let extensions :=
    match optionalField declaredExtensions Extensions.shareTarget with
    | Some true =>
        let template := getExtensionTemplate "share-target" in
        extensions ++ [trimEnd template]
    | _ => extensions
    end in
  let extensions :=
    match optionalField declaredExtensions Extensions.fileAssociations with
    | Some fileAssociations =>
        let template := getExtensionTemplate "file-association" in
        fold_left
          (fun extensions assoc =>
             let fileTypes :=
               join newline
                 (map (fun ext =>
                         "          <uap:FileType>" ++ ext ++ "</uap:FileType>")%string
                      (FileAssociation.extensions assoc)) in
             let result :=
               replaceTemplateVariables template
                 [("NAME", FileAssociation.name assoc);
                  ("FILE_TYPES", fileTypes)] in
             extensions ++ [trimEnd result])
          fileAssociations extensions
    | None => extensions
    end in
  let extensions :=
    match optionalField declaredExtensions Extensions.protocolHandlers with
    | Some protocolHandlers =>
        let template := getExtensionTemplate "protocol" in
        fold_left
          (fun extensions handler =>
             let result :=
               replaceTemplateVariables template
                 [("NAME", ProtocolHandler.name handler);
                  ("DISPLAY_NAME",
                   or_else (ProtocolHandler.displayName handler)
                           (ProtocolHandler.name handler))] in
             extensions ++ [trimEnd result])
          protocolHandlers extensions
    | None => extensions
    end in
  let extensions :=
    match optionalField declaredExtensions Extensions.startupTask with
    | Some startupTask =>
        if StartupTask.enabled startupTask then
          let template := getExtensionTemplate "startup-task" in
          let taskId := or_else (StartupTask.taskId startupTask) "StartupTask" in
          let result :=
            replaceTemplateVariables template
              [("TASK_ID", taskId);
               ("DISPLAY_NAME", MergedConfig.displayName config)] in
          extensions ++ [trimEnd result]
        else extensions
    | None => extensions
    end in
  let extensions :=
    match optionalField declaredExtensions Extensions.contextMenus with
    | Some contextMenus =>
        let template := getExtensionTemplate "context-menu" in
        fold_left
          (fun extensions menu =>
             let fileTypes :=
               join newline
                 (map (fun ft =>
                         "            <desktop:FileType>" ++ ft
                         ++ "</desktop:FileType>")%string
                      (ContextMenu.fileTypes menu)) in
             let result :=
               replaceTemplateVariables template
                 [("NAME", ContextMenu.name menu);
                  ("FILE_TYPES", fileTypes)] in
             extensions ++ [trimEnd result])
          contextMenus extensions
    | None => extensions
    end in
  let extensions :=
    match optionalField declaredExtensions Extensions.backgroundTasks with
    | Some backgroundTasks =>
        let template := getExtensionTemplate "background-task" in
        fold_left
          (fun extensions task =>
             let triggerType :=
               match BackgroundTask.type_ task with
               | BackgroundTask.timer => "TimeTrigger"
               | BackgroundTask.systemEvent => "SystemTrigger"
               | BackgroundTask.pushNotification => "PushNotificationTrigger"
               end in
             let result :=
               replaceTemplateVariables template
                 [("ENTRY_POINT", BackgroundTask.name task);
                  ("TRIGGER_TYPE", triggerType)] in
             extensions ++ [trimEnd result])
          backgroundTasks extensions
    | None => extensions
    end in
  let extensions :=
    match optionalField declaredExtensions Extensions.appExecutionAliases with
    | Some appExecutionAliases =>
        let template := getExtensionTemplate "app-execution-alias" in
        let executable :=
          (removeChars isWhitespace (MergedConfig.displayName config)
           ++ ".exe")%string in
        fold_left
          (fun extensions alias =>
             let result :=
               replaceTemplateVariables template
                 [("ALIAS",
                   if endsWith ".exe" (AppExecutionAlias.alias alias)
                   then AppExecutionAlias.alias alias
                   else (AppExecutionAlias.alias alias ++ ".exe")%string);
                  ("EXECUTABLE", executable)] in
             extensions ++ [trimEnd result])
          appExecutionAliases extensions
    | None => extensions
    end in
  let extensions :=
    match optionalField declaredExtensions Extensions.appServices with
    | Some appServices =>
        let template := getExtensionTemplate "app-service" in
        fold_left
          (fun extensions service =>
             let result :=
               replaceTemplateVariables template
                 [("NAME", AppService.name service)] in
             extensions ++ [trimEnd result])
          appServices extensions
    | None => extensions
    end in
  let extensions :=
    match optionalField declaredExtensions Extensions.toastActivation with
    | Some _ =>
        let template := getExtensionTemplate "toast-activation" in
        let clsid :=
          generateClsid (MergedConfig.identifier config ++ ".toast")%string in
        let result := replaceTemplateVariables template [("CLSID", clsid)] in
        extensions ++ [trimEnd result]
    | None => extensions
    end in
  let extensions :=
    match optionalField declaredExtensions Extensions.autoplayHandlers with
    | Some autoplayHandlers =>
        fold_left
          (fun extensions handler =>
             let extensions :=
               match AutoplayHandler.contentEvent handler with
               | Some (String _ _ as contentEvent) =>
                   let template := getExtensionTemplate "autoplay" in
                   let result :=
                     replaceTemplateVariables template
                       [("VERB", AutoplayHandler.verb handler);
                        ("ACTION_DISPLAY_NAME",
                         AutoplayHandler.actionDisplayName handler);
                        ("CONTENT_EVENT", contentEvent)] in
                   extensions ++ [trimEnd result]
               | _ => extensions
               end in
             match AutoplayHandler.deviceEvent handler with
             | Some (String _ _ as deviceEvent) =>
                 let template := getExtensionTemplate "autoplay-device" in
                 let result :=
                   replaceTemplateVariables template
                     [("VERB", AutoplayHandler.verb handler);
                      ("ACTION_DISPLAY_NAME",
                       AutoplayHandler.actionDisplayName handler);
                      ("DEVICE_EVENT", deviceEvent)] in
                 extensions ++ [trimEnd result]
             | _ => extensions
             end)
          autoplayHandlers extensions
    | None => extensions
    end in
  let extensions :=
    match optionalField declaredExtensions Extensions.printTaskSettings with
    | Some _ =>
        let template := getExtensionTemplate "print-task-settings" in
        extensions ++ [trimEnd template]
    | None => extensions
    end in
  let extensions :=
    match optionalField declaredExtensions Extensions.thumbnailHandlers with
    | Some thumbnailHandlers =>
        let template := getExtensionTemplate "thumbnail-handler" in
        fold_left
          (fun extensions handler =>
             let fileTypes :=
               join newline
                 (map (fun ext =>
                         "          <uap:FileType>" ++ ext ++ "</uap:FileType>")%string
                      (ThumbnailHandler.fileTypes handler)) in
             let result :=
               replaceTemplateVariables template
                 [("NAME",
                   ("thumbnail-"
                    ++ slice 0 8
                         (removeChars isBrace
                            (ThumbnailHandler.clsid handler)))%string);
                  ("FILE_TYPES", fileTypes);
                  ("CLSID", ThumbnailHandler.clsid handler)] in
             extensions ++ [trimEnd result])
          thumbnailHandlers extensions
    | None => extensions
    end in
  let extensions :=
    match optionalField declaredExtensions Extensions.previewHandlers with
    | Some previewHandlers =>
        let template := getExtensionTemplate "preview-handler" in
        fold_left
          (fun extensions handler =>
             let fileTypes :=
               join newline
                 (map (fun ext =>
                         "          <uap:FileType>" ++ ext ++ "</uap:FileType>")%string
                      (PreviewHandler.fileTypes handler)) in
             let result :=
               replaceTemplateVariables template
                 [("NAME",
                   ("preview-"
                    ++ slice 0 8
                         (removeChars isBrace
                            (PreviewHandler.clsid handler)))%string);
                  ("FILE_TYPES", fileTypes);
                  ("CLSID", PreviewHandler.clsid handler)] in
             extensions ++ [trimEnd result])
          previewHandlers extensions
    | None => extensions
    end in
  match extensions with
  | [] => EmptyString
  | _ =>
      ("      <Extensions>" ++ newline ++ join (newline ++ newline) extensions
       ++ newline ++ "      </Extensions>")%string
  end.



End Templates.



(** *** Capability lines *)

Lemma push_lines (line : string -> string) (tokens caps : list string) :
  fold_left (fun caps cap => caps ++ [line cap]) tokens caps
  = caps ++ map line tokens.
Proof.
  revert caps.
  induction tokens as [|t ts IH]; intros caps; simpl.
  - now rewrite app_nil_r.
  - rewrite IH. now rewrite <- app_assoc.
Qed.

Lemma generateCapabilities_lines config :
  generateCapabilities config =
  join newline
    (fullTrustLine
     :: map (fun cap =>
               "    <Capability Name=" ++ dquote ++ cap ++ dquote ++ " />")%string
            (declared (general config))
     ++ map (fun cap =>
               "    <DeviceCapability Name=" ++ dquote ++ cap ++ dquote
               ++ " />")%string
            (declared (device config))
     ++ map (fun cap =>
               "    <rescap:Capability Name=" ++ dquote ++ cap ++ dquote
               ++ " />")%string
            (declared (restricted config))).
Proof.
  unfold generateCapabilities.
  destruct config as [g d r]; cbn [general device restricted].
  destruct g as [g|], d as [d|], r as [r|]; cbn [declared map];
    repeat rewrite (push_lines
      (fun cap => "    <rescap:Capability Name=" ++ dquote ++ cap ++ dquote
                  ++ " />")%string);
    repeat rewrite (push_lines
      (fun cap => "    <DeviceCapability Name=" ++ dquote ++ cap ++ dquote
                  ++ " />")%string);
    repeat rewrite (push_lines
      (fun cap => "    <Capability Name=" ++ dquote ++ cap ++ dquote
                  ++ " />")%string);
    repeat rewrite app_nil_r; cbn [app];
    repeat rewrite <- app_assoc; reflexivity.
Qed.

Lemma join_cons sep p rest :
  exists tail, join sep (p :: rest) = (p ++ tail)%string.
Proof.
  destruct rest as [|q rest].
  - exists EmptyString. simpl.
    induction p as [|c p IH]; simpl; [reflexivity | now rewrite <- IH].
  - exists (sep ++ join sep (q :: rest))%string. reflexivity.
Qed.

Lemma generateCapabilities_nothing config :
  declaresNothing config = true -> generateCapabilities config = fullTrustLine.
Proof.
  intros Hnone. rewrite generateCapabilities_lines.
  destruct config as [g d r]. unfold declaresNothing in Hnone.
  cbn [general device restricted] in *.
  destruct g as [[|? ?]|], d as [[|? ?]|], r as [[|? ?]|];
    try discriminate; reflexivity.
Qed.

(** Claim C6.  For every capabilities configuration the rendered block
    begins with the runFullTrust declaration, whatever the user declared;
    and when the configuration declares no token at all (each of the three
    lists empty or absent) the block is that one declaration and nothing
    else. *)
Theorem generateCapabilities_always_full_trust :
  (forall config : CapabilitiesConfig,
      exists rest : string,
        generateCapabilities config = (fullTrustLine ++ rest)%string) /\
  (forall config : CapabilitiesConfig,
      declaresNothing config = true ->
      generateCapabilities config = fullTrustLine).
Proof.
  split; intros config.
  - rewrite generateCapabilities_lines. apply join_cons.
  - apply generateCapabilities_nothing.
Qed.

Lemma generateCapabilities_always_full_trust_witness :
  generateCapabilities
    {| general := Some []; device := None; restricted := Some [] |}
  = fullTrustLine.
Proof.
  apply (proj2 generateCapabilities_always_full_trust
               {| general := Some []; device := None; restricted := Some [] |}).
  reflexivity.
Defined.

(** *** The pseudo-CLSID *)

Lemma toInt32_range x : (-2147483648 <= toInt32 x < 2147483648)%Z.
Proof.
  unfold toInt32.
  pose proof (Z.mod_pos_bound (x + 2147483648) 4294967296 ltac:(lia)). lia.
Qed.

Lemma hashStep_range hash char :
  (-2147483648 <= hashStep hash char < 2147483648)%Z.
Proof.
  unfold hashStep, bitAnd. rewrite Z.land_diag. apply toInt32_range.
Qed.

(** The hash stays a signed 32-bit integer, so its products with 31, 37 and
    41 are integers below 2^37. *)
Lemma hash_range codes start :
  (-2147483648 <= start < 2147483648)%Z ->
  (-2147483648 <= fold_left hashStep codes start < 2147483648)%Z.
Proof.
  revert start.
  induction codes as [|c codes IH]; intros start H; simpl; [exact H|].
  apply IH, hashStep_range.
Qed.

Lemma hasShape_append p1 p2 s1 s2 :
  hasShape p1 s1 = true -> hasShape p2 s2 = true ->
  hasShape (p1 ++ p2) (s1 ++ s2) = true.
Proof.
  revert s1.
  induction p1 as [|p p1 IH]; intros [|c s1] H1 H2; simpl in *;
    try discriminate; [exact H2|].
  apply andb_true_iff in H1 as [Hc H1].
  now rewrite Hc, IH.
Qed.

Lemma hasShape_digits n g :
  String.length g = n -> allChars isUpperHex g = true ->
  hasShape (repeatChar "X" n) g = true.
Proof.
  revert g.
  induction n as [|n IH]; intros [|c g] Hlen Hhex; simpl in *;
    try discriminate; [reflexivity|].
  apply andb_true_iff in Hhex as [Hc Hg].
  rewrite Hc. apply IH; [lia | exact Hg].
Qed.

(** A slice of a padded base-16 number, in upper case, is a group of
    digits of the length asked for. *)
Lemma hex_group a b width n :
  a <= b -> b <= width ->
  hasShape (repeatChar "X" (b - a))
           (toUpperCase (slice a b (padStart width "0" (toString16 n))))
  = true.
Proof.
  intros Hab Hb.
  assert (Hlower : allChars isLowerHex (padStart width "0" (toString16 n))
                   = true)
    by (apply allChars_padStart; [reflexivity | apply toString16_lower]).
  apply hasShape_digits.
  - rewrite length_toUpperCase. apply length_slice; [exact Hab|].
    rewrite length_padStart. lia.
  - apply toUpperCase_hex. unfold slice. now apply allChars_substring.
Qed.

Lemma clsidOfHash_shape hash : hasShape CLSID_SHAPE (clsidOfHash hash) = true.
Proof.
  unfold clsidOfHash. rewrite !toUpperCase_append.
  change CLSID_SHAPE
    with ("{" ++ repeatChar "X" (8 - 0) ++ "-" ++ repeatChar "X" (4 - 0)
          ++ "-" ++ repeatChar "X" (8 - 4) ++ "-" ++ repeatChar "X" (4 - 0)
          ++ "-" ++ repeatChar "X" (12 - 0) ++ "}")%string.
  repeat (apply hasShape_append;
          [first [reflexivity | apply hex_group; lia]|]).
  reflexivity.
Qed.

(** Claim C8.  The derivation is a function of the seed: equal seeds give
    the same text.  For every seed, that text has the shape
    {XXXXXXXX-XXXX-XXXX-XXXX-XXXXXXXXXXXX}, with upper-case base-16 digits
    only in the place of each X; this holds for any sequence of code units
    and so for every string. *)
Theorem generateClsid_deterministic_and_shaped :
  (forall seed1 seed2 : string,
      seed1 = seed2 -> generateClsid seed1 = generateClsid seed2) /\
  (forall codes : list Z,
      hasShape CLSID_SHAPE (generateClsidOfCodes codes) = true) /\
  (forall seed : string,
      hasShape CLSID_SHAPE (generateClsid seed) = true
      /\ String.length (generateClsid seed) = 38) /\
  generateClsid "com.example.testapp.toast"
  = "{659E1269-C4E2-43AB-EAFD-00104650F2D1}".
Proof.
  assert (Hlen : forall shape s,
             hasShape shape s = true -> String.length s = String.length shape).
  { induction shape as [|p shape IH]; intros [|c s] H; simpl in *;
      try discriminate; [reflexivity|].
    apply andb_true_iff in H as [_ H]. now rewrite (IH s H). }
  repeat split.
  - intros seed1 seed2 Heq. now rewrite Heq.
  - intros codes. apply clsidOfHash_shape.
  - apply clsidOfHash_shape.
  - rewrite (Hlen CLSID_SHAPE) by apply clsidOfHash_shape. reflexivity.
Qed.

Lemma generateClsid_deterministic_and_shaped_witness :
  generateClsid "com.example.app.toast" = generateClsid "com.example.app.toast".
Proof.
  apply (proj1 generateClsid_deterministic_and_shaped
               "com.example.app.toast" "com.example.app.toast").
  reflexivity.
Defined.

(** *** The manifest text *)

Section ManifestText.

Variable getExtensionTemplate : string -> string.
Variable pathJoin : string -> string -> string.
Variable readFile : string -> option string.


(** The extension block does not read the capabilities. *)
Lemma generateExtensions_withCapabilities config caps :
  generateExtensions getExtensionTemplate (withCapabilities config caps)
  = generateExtensions getExtensionTemplate config.
Proof. reflexivity. Qed.


(** Without declared extensions there is no block at all, not an empty
    wrapper. *)
Lemma generateExtensions_none config :
  MergedConfig.extensions config = None \/
  MergedConfig.extensions config = Some Extensions.none ->
  generateExtensions getExtensionTemplate config = EmptyString.
Proof.
  unfold generateExtensions. intros [H|H]; rewrite H; reflexivity.
Qed.



End ManifestText.


(** *** The hash of the seed *)

(** The polynomial hash with multiplier 31, on unbounded integers. *)
Definition polynomialHash (codes : list Z) : Z :=
  fold_left (fun hash char => 31 * hash + char)%Z codes 0%Z.

Lemma toInt32_wraps x : exists k : Z, toInt32 x = (x + 4294967296 * k)%Z.
Proof.
  unfold toInt32.
  exists (- ((x + 2147483648) / 4294967296))%Z.
  pose proof (Z.div_mod (x + 2147483648) 4294967296 ltac:(lia)). lia.
Qed.

Lemma toInt32_plus_multiple x k :
  toInt32 (x + 4294967296 * k) = toInt32 x.
Proof.
  unfold toInt32.
  replace (x + 4294967296 * k + 2147483648)%Z
    with (x + 2147483648 + k * 4294967296)%Z by lia.
  now rewrite Z_mod_plus_full.
Qed.

Lemma toInt32_small x :
  (-2147483648 <= x < 2147483648)%Z -> toInt32 x = x.
Proof.
  intros H. unfold toInt32. rewrite Z.mod_small by lia. lia.
Qed.

Lemma toInt32_same x y :
  toInt32 x = toInt32 y -> exists k : Z, x = (y + 4294967296 * k)%Z.
Proof.
  intros H.
  destruct (toInt32_wraps x) as [kx Hx], (toInt32_wraps y) as [ky Hy].
  exists (ky - kx)%Z. lia.
Qed.

(** One turn of the loop multiplies by 31 and adds the code unit, wrapped
    to 32 bits. *)
Lemma hashStep_polynomial hash char :
  hashStep hash char = toInt32 (31 * hash + char).
Proof.
  unfold hashStep, bitAnd, shiftLeft. rewrite Z.land_diag.
  change (Z.land 5 31) with 5%Z. rewrite Z.shiftl_mul_pow2 by lia.
  destruct (toInt32_wraps hash) as [k1 H1]. rewrite H1.
  destruct (toInt32_wraps ((hash + 4294967296 * k1) * 2 ^ 5)) as [k2 H2].
  rewrite H2.
  replace ((hash + 4294967296 * k1) * 2 ^ 5 + 4294967296 * k2 - hash + char)%Z
    with (31 * hash + char + 4294967296 * (32 * k1 + k2))%Z by lia.
  apply toInt32_plus_multiple.
Qed.

Lemma hash_polynomial_from codes start start' :
  toInt32 start = toInt32 start' ->
  toInt32 (fold_left hashStep codes start)
  = toInt32 (fold_left (fun hash char => 31 * hash + char)%Z codes start').
Proof.
  revert start start'.
  induction codes as [|c codes IH]; intros start start' H; [exact H|].
  cbn [fold_left]. apply IH.
  rewrite hashStep_polynomial.
  destruct (toInt32_wraps (31 * start + c)) as [k Hk]. rewrite Hk.
  rewrite toInt32_plus_multiple.
  apply toInt32_same in H as [k' ->].
  replace (31 * (start' + 4294967296 * k') + c)%Z
    with (31 * start' + c + 4294967296 * (31 * k'))%Z by lia.
  apply toInt32_plus_multiple.
Qed.

Lemma hash_polynomial codes :
  fold_left hashStep codes 0%Z = toInt32 (polynomialHash codes).
Proof.
  assert (Hrange : (-2147483648 <= fold_left hashStep codes 0
                    < 2147483648)%Z) by (apply hash_range; lia).
  rewrite <- (toInt32_small _ Hrange).
  now apply hash_polynomial_from.
Qed.

(** Property X4.  The hash that [generateClsid] takes from its seed is the
    polynomial hash with multiplier 31 of the code units, wrapped to a
    signed 32-bit integer: the shift, the subtraction and the [&] of each
    turn amount to multiplying by 31 and adding, modulo 2^32. *)
Theorem generateClsid_hash_is_polynomial :
  forall codes : list Z,
    fold_left hashStep codes 0%Z = toInt32 (polynomialHash codes) /\
    generateClsidOfCodes codes = clsidOfHash (toInt32 (polynomialHash codes)) /\
    (-2147483648 <= toInt32 (polynomialHash codes) < 2147483648)%Z.
Proof.
  intros codes. split; [apply hash_polynomial|]. split.
  - unfold generateClsidOfCodes. now rewrite hash_polynomial.
  - apply toInt32_range.
Qed.

(** *** How many fragments the extension block holds *)

Definition isTrue (o : option bool) : nat :=
  match o with Some true => 1 | _ => 0 end.

Definition present {A : Type} (o : option A) : nat :=
  match o with Some _ => 1 | None => 0 end.

Definition entries {A : Type} (o : option (list A)) : nat :=
  match o with Some l => List.length l | None => 0 end.

Definition enabledTask (o : option StartupTask.t) : nat :=
  match o with
  | Some task => if StartupTask.enabled task then 1 else 0
  | None => 0
  end.

Definition nonEmpty (o : option string) : nat :=
  match o with Some (String _ _) => 1 | _ => 0 end.

Definition autoplayEvents (o : option (list AutoplayHandler.t)) : nat :=
  match o with
  | Some handlers =>
      list_sum
        (map (fun handler =>
                nonEmpty (AutoplayHandler.contentEvent handler)
                + nonEmpty (AutoplayHandler.deviceEvent handler))
             handlers)
  | None => 0
  end.

(** The fragments [generateExtensions] is to push for [config]: one for
    each switch that is on, one for each entry of each list, and for an
    autoplay handler one for each of its two events that is given. *)
Definition fragmentCount (config : MergedConfig.t) : nat :=
  match MergedConfig.extensions config with
  | None => 0
  | Some e =>
      isTrue (Extensions.shareTarget e)
      + entries (Extensions.fileAssociations e)
      + entries (Extensions.protocolHandlers e)
      + enabledTask (Extensions.startupTask e)
      + entries (Extensions.contextMenus e)
      + entries (Extensions.backgroundTasks e)
      + entries (Extensions.appExecutionAliases e)
      + entries (Extensions.appServices e)
      + present (Extensions.toastActivation e)
      + autoplayEvents (Extensions.autoplayHandlers e)
      + present (Extensions.printTaskSettings e)
      + entries (Extensions.thumbnailHandlers e)
      + entries (Extensions.previewHandlers e)
  end.

(** The last statement of [generateExtensions], on the fragments. *)
Definition wrapExtensions (fragments : list string) : string :=
  match fragments with
  | [] => EmptyString
  | _ =>
      ("      <Extensions>" ++ newline ++ join (newline ++ newline) fragments
       ++ newline ++ "      </Extensions>")%string
  end.

Definition emits (output : string) (count : nat) : Prop :=
  exists fragments : list string,
    List.length fragments = count /\ output = wrapExtensions fragments.

Lemma fold_length {B : Type} (g : list string -> B -> list string)
    (weight : B -> nat) :
  (forall acc x, List.length (g acc x) = List.length acc + weight x) ->
  forall (items : list B) (acc : list string),
    List.length (fold_left g items acc)
    = List.length acc + list_sum (map weight items).
Proof.
  intros Hg. induction items as [|x items IH]; intros acc; simpl.
  - lia.
  - rewrite IH, Hg. lia.
Qed.

Lemma fold_length_one {B : Type} (g : list string -> B -> list string) :
  (forall acc x, List.length (g acc x) = S (List.length acc)) ->
  forall (items : list B) (acc : list string),
    List.length (fold_left g items acc)
    = List.length acc + List.length items.
Proof.
  intros Hg items acc.
  rewrite (fold_length g (fun _ => 1)) by (intros; rewrite Hg; lia).
  f_equal. induction items as [|x items IH]; simpl; [reflexivity|].
  now rewrite IH.
Qed.

Ltac next_block :=
  match goal with
  | |- context C [let x := ?v in @?f x] =>
      let acc := fresh "pushed" in
      pose (acc := v);
      let g := context C [f acc] in
      change g; cbv beta
  end.

Ltac one_each :=
  intros; cbv zeta; rewrite length_app; cbn [List.length]; lia.

Section ExtensionCount.

Variable getExtensionTemplate : string -> string.

Lemma generateExtensions_emits config :
  emits (generateExtensions getExtensionTemplate config)
        (fragmentCount config).
Proof.
  unfold fragmentCount. cbv beta delta [generateExtensions].
  destruct (MergedConfig.extensions config) as [e|];
    [|exists []; split; reflexivity].
  next_block. next_block.
  assert (H0 : List.length pushed0 = 0) by reflexivity.
  clearbody pushed0.
  next_block.
  assert (H1 : List.length pushed1
               = List.length pushed0 + isTrue (Extensions.shareTarget e)).
  { unfold pushed1, pushed. cbn [optionalField].
    destruct (Extensions.shareTarget e) as [[]|]; cbv zeta;
      rewrite ?length_app; cbn [List.length isTrue]; lia. }
  clearbody pushed1.
  next_block.
  assert (H2 : List.length pushed2
               = List.length pushed1
                 + entries (Extensions.fileAssociations e)).
  { unfold pushed2, pushed. cbn [optionalField].
    destruct (Extensions.fileAssociations e) as [l|]; cbv zeta;
      [rewrite fold_length_one by one_each | ]; cbn [entries]; lia. }
  clearbody pushed2.
  next_block.
  assert (H3 : List.length pushed3
               = List.length pushed2
                 + entries (Extensions.protocolHandlers e)).
  { unfold pushed3, pushed. cbn [optionalField].
    destruct (Extensions.protocolHandlers e) as [l|]; cbv zeta;
      [rewrite fold_length_one by one_each | ]; cbn [entries]; lia. }
  clearbody pushed3.
  next_block.
  assert (H4 : List.length pushed4
               = List.length pushed3
                 + enabledTask (Extensions.startupTask e)).
  { unfold pushed4, pushed. cbn [optionalField].
    destruct (Extensions.startupTask e) as [task|]; cbn [enabledTask];
      [destruct (StartupTask.enabled task); cbv zeta;
       rewrite ?length_app; cbn [List.length] | ]; lia. }
  clearbody pushed4.
  next_block.
  assert (H5 : List.length pushed5
               = List.length pushed4 + entries (Extensions.contextMenus e)).
  { unfold pushed5, pushed. cbn [optionalField].
    destruct (Extensions.contextMenus e) as [l|]; cbv zeta;
      [rewrite fold_length_one by one_each | ]; cbn [entries]; lia. }
  clearbody pushed5.
  next_block.
  assert (H6 : List.length pushed6
               = List.length pushed5
                 + entries (Extensions.backgroundTasks e)).
  { unfold pushed6, pushed. cbn [optionalField].
    destruct (Extensions.backgroundTasks e) as [l|]; cbv zeta;
      [rewrite fold_length_one by one_each | ]; cbn [entries]; lia. }
  clearbody pushed6.
  next_block.
  assert (H7 : List.length pushed7
               = List.length pushed6
                 + entries (Extensions.appExecutionAliases e)).
  { unfold pushed7, pushed. cbn [optionalField].
    destruct (Extensions.appExecutionAliases e) as [l|]; cbv zeta;
      [rewrite fold_length_one by one_each | ]; cbn [entries]; lia. }
  clearbody pushed7.
  next_block.
  assert (H8 : List.length pushed8
               = List.length pushed7 + entries (Extensions.appServices e)).
  { unfold pushed8, pushed. cbn [optionalField].
    destruct (Extensions.appServices e) as [l|]; cbv zeta;
      [rewrite fold_length_one by one_each | ]; cbn [entries]; lia. }
  clearbody pushed8.
  next_block.
  assert (H9 : List.length pushed9
               = List.length pushed8
                 + present (Extensions.toastActivation e)).
  { unfold pushed9, pushed. cbn [optionalField].
    destruct (Extensions.toastActivation e) as [t|]; cbv zeta;
      rewrite ?length_app; cbn [List.length present]; lia. }
  clearbody pushed9.
  next_block.
  assert (H10 : List.length pushed10
                = List.length pushed9
                  + autoplayEvents (Extensions.autoplayHandlers e)).
  { unfold pushed10, pushed. cbn [optionalField].
    destruct (Extensions.autoplayHandlers e) as [l|]; cbn [autoplayEvents];
      [|lia].
    rewrite (fold_length _
               (fun handler =>
                  nonEmpty (AutoplayHandler.contentEvent handler)
                  + nonEmpty (AutoplayHandler.deviceEvent handler)));
      [reflexivity|].
    intros acc handler. cbv zeta.
    destruct (AutoplayHandler.contentEvent handler) as [[|c s]|],
             (AutoplayHandler.deviceEvent handler) as [[|c' s']|];
      rewrite ?length_app; cbn [List.length nonEmpty]; lia. }
  clearbody pushed10.
  next_block.
  assert (H11 : List.length pushed11
                = List.length pushed10
                  + present (Extensions.printTaskSettings e)).
  { unfold pushed11, pushed. cbn [optionalField].
    destruct (Extensions.printTaskSettings e) as [t|]; cbv zeta;
      rewrite ?length_app; cbn [List.length present]; lia. }
  clearbody pushed11.
  next_block.
  assert (H12 : List.length pushed12
                = List.length pushed11
                  + entries (Extensions.thumbnailHandlers e)).
  { unfold pushed12, pushed. cbn [optionalField].
    destruct (Extensions.thumbnailHandlers e) as [l|]; cbv zeta;
      [rewrite fold_length_one by one_each | ]; cbn [entries]; lia. }
  clearbody pushed12.
  next_block.
  assert (H13 : List.length pushed13
                = List.length pushed12
                  + entries (Extensions.previewHandlers e)).
  { unfold pushed13, pushed. cbn [optionalField].
    destruct (Extensions.previewHandlers e) as [l|]; cbv zeta;
      [rewrite fold_length_one by one_each | ]; cbn [entries]; lia. }
  clearbody pushed13.
  exists pushed13. split; [lia | reflexivity].
Qed.

(** Property X17.  The extension block holds one fragment for each switch
    that is on, one for each entry of each list and, for an autoplay
    handler, one for each of its two events that is given; a list that is
    present but empty, a switch that is off and a startup task that is not
    enabled add nothing.  The result is the empty string exactly when
    there is no fragment, and the fragments inside an Extensions element
    otherwise. *)
Theorem generateExtensions_fragment_count :
  forall config : MergedConfig.t,
    (exists fragments : list string,
        List.length fragments = fragmentCount config /\
        generateExtensions getExtensionTemplate config
        = wrapExtensions fragments) /\
    (generateExtensions getExtensionTemplate config = EmptyString <->
     fragmentCount config = 0).
Proof.
  intros config.
  destruct (generateExtensions_emits config) as (fragments & Hlen & Hout).
  split; [now exists fragments|].
  rewrite Hout, <- Hlen.
  destruct fragments as [|fragment rest]; cbn [wrapExtensions List.length].
  - tauto.
  - split; [discriminate | lia].
Qed.

End ExtensionCount.

(** Property X18.  The capability block is the runFullTrust line followed
    by one Capability line for each general token, one DeviceCapability
    line for each device token and one rescap:Capability line for each
    restricted token, in this order and in the order of declaration; every
    declared token is rendered as it is, whether or not it is in a
    vocabulary, so the block has one line more than there are tokens. *)
Theorem generateCapabilities_renders_every_token :
  forall config : CapabilitiesConfig,
    exists lines : list string,
      generateCapabilities config = join newline lines /\
      lines
      = fullTrustLine
        :: map (fun cap =>
                  "    <Capability Name=" ++ dquote ++ cap ++ dquote ++ " />")%string
               (declared (general config))
        ++ map (fun cap =>
                  "    <DeviceCapability Name=" ++ dquote ++ cap ++ dquote
                  ++ " />")%string
               (declared (device config))
        ++ map (fun cap =>
                  "    <rescap:Capability Name=" ++ dquote ++ cap ++ dquote
                  ++ " />")%string
               (declared (restricted config)) /\
      List.length lines
      = 1 + List.length (declared (general config))
        + List.length (declared (device config))
        + List.length (declared (restricted config)).
Proof.
  intros config. eexists. split; [apply generateCapabilities_lines|].
  split; [reflexivity|].
  cbn [List.length]. rewrite !length_app, !length_map. lia.
Qed.

End Manifest.

(* ================================================================== *)
(** ** src/commands/build.ts: the configuration block of [build] *)
(* ================================================================== *)

Module Build.
Import Text Types ProjectDiscovery.

(** The object literal that [build] binds to [config]:
    [{ displayName, version, description, identifier, ...bundleConfig }].
    The spread comes last and copies every property of [bundleConfig] as it
    is.  So the object has a [publisher] and a [publisherDisplayName] only
    when bundle.config.json has them, and a key of bundle.config.json named
    displayName, version, description or identifier replaces the value
    resolved from the app config, whatever it holds.  The four leading
    fields are what stands under these keys after the spread. *)
Record configObject : Type := {
  displayName : Merge.value;
  version : Merge.value;
  description : Merge.value;
  identifier : Merge.value;
  spread : BundleConfig.t
}.

(** What stands under [key] of the object literal: the value that the
    spread of [bundleConfig] brings when bundle.config.json has the key,
    the resolved string otherwise. *)
Definition afterSpread (key : string) (resolved : string)
    (bundleConfig : BundleConfig.t) : Merge.value :=
  match Merge.lookup key (BundleConfig.otherKeys bundleConfig) with
  | Some overwriting => overwriting
  | None => Merge.VString resolved
  end.

Definition publisher (config : configObject) : option string :=
  BundleConfig.publisher (spread config).

Definition publisherDisplayName (config : configObject) : option string :=
  BundleConfig.publisherDisplayName (spread config).

(** How the block ends: [build] goes on with [config], or the process exits
    with [code] after the lines written by [console.error]. *)
Inductive step : Type :=
| Continue (config : configObject)
| Exit (code : Z) (stderr : list string).

(** [tauriConfig.bundle?.shortDescription]. *)
Definition shortDescriptionOf (tauriConfig : TauriConfig.t) : option string :=
  match TauriConfig.bundle tauriConfig with
  | Some bundle => TauriConfig.shortDescription bundle
  | None => None
  end.

(** [build], from "Validate capabilities" to "Merge config", on the two
    documents read by [readTauriConfig] and [readBundleConfig]. *)
Definition buildConfig (tauriConfig : TauriConfig.t)
    (bundleConfig : BundleConfig.t) : step :=
  let merge :=
    Continue
      {| displayName :=
           afterSpread "displayName"
             (or_else (TauriConfig.productName tauriConfig) "App")
             bundleConfig;
         version :=
           afterSpread "version"
             (toFourPartVersion
                (or_else (TauriConfig.version tauriConfig) "1.0.0"))
             bundleConfig;
         description :=
           afterSpread "description"
             (or_else (shortDescriptionOf tauriConfig) "") bundleConfig;
         identifier :=
           afterSpread "identifier"
             (or_else (TauriConfig.identifier tauriConfig) "com.example.app")
             bundleConfig;
         spread := bundleConfig |} in
  match BundleConfig.capabilities bundleConfig with
  | Some capabilities =>
      let errors := validateCapabilities capabilities in
      if (0 <? List.length errors)%nat
      then Exit 1 ("Invalid capabilities in bundle.config.json:"
                   :: map (fun error => "  - " ++ error)%string errors)
      else merge
  | None => merge
  end.

(** The documents of the project the tests of [build] set up. *)
Definition testTauriConfig (bundle : option TauriConfig.bundle_)
  : TauriConfig.t :=
  {| TauriConfig.productName := Some "TestApp";
     TauriConfig.version := Some "1.0.0";
     TauriConfig.identifier := Some "com.example.testapp";
     TauriConfig.bundle := bundle |}.

Definition bundleWithPublisher (name : string) : TauriConfig.bundle_ :=
  {| TauriConfig.icon := None;
     TauriConfig.shortDescription := None;
     TauriConfig.longDescription := None;
     TauriConfig.publisher := Some name;
     TauriConfig.resources := None;
     TauriConfig.windows := None |}.

Definition testBundleConfig (publisher publisherDisplayName : option string)
  : BundleConfig.t :=
  {| BundleConfig.publisher := publisher;
     BundleConfig.publisherDisplayName := publisherDisplayName;
     BundleConfig.resourceIndex := None;
     BundleConfig.capabilities :=
       Some {| general := Some ["internetClient"];
               device := None; restricted := None |};
     BundleConfig.extensions := None;
     BundleConfig.signing := None;
     BundleConfig.otherKeys := [] |}.

(** The block exits only for invalid capabilities; otherwise the object has
    the publisher properties of bundle.config.json and no others. *)
Lemma buildConfig_spreads tauriConfig bundleConfig :
  (exists stderr, buildConfig tauriConfig bundleConfig = Exit 1 stderr /\
                  exists capabilities,
                    BundleConfig.capabilities bundleConfig = Some capabilities
                    /\ validateCapabilities capabilities <> [])
  \/
  (exists config, buildConfig tauriConfig bundleConfig = Continue config /\
                  publisher config = BundleConfig.publisher bundleConfig /\
                  publisherDisplayName config
                  = BundleConfig.publisherDisplayName bundleConfig).
Proof.
  unfold buildConfig.
  destruct (BundleConfig.capabilities bundleConfig) as [capabilities|] eqn:E.
  - destruct (validateCapabilities capabilities) as [|e errors] eqn:Ev.
    + right. eexists. split; [reflexivity|]. split; reflexivity.
    + left. eexists. split; [reflexivity|].
      exists capabilities. split; [reflexivity|]. rewrite Ev. discriminate.
  - right. eexists. split; [reflexivity|]. split; reflexivity.
Qed.

(** Claim C1, on the code.  With no publisher in bundle.config.json and
    CN=FromTauriConfig as the bundle publisher of the app config, [build]
    goes on with an object that has no publisher; with no publisher in
    either document it goes on as well, without an error. *)
Theorem buildConfig_publisher_stays_undefined :
  (exists config,
      buildConfig (testTauriConfig (Some (bundleWithPublisher "CN=FromTauriConfig")))
                  (testBundleConfig None (Some "Test Company"))
      = Continue config /\ publisher config = None) /\
  (exists config,
      buildConfig (testTauriConfig None)
                  (testBundleConfig None (Some "Test Company"))
      = Continue config /\ publisher config = None).
Proof.
  split; eexists; split; reflexivity.
Qed.

(** Claim C7, on the code.  With publisher CN=TestCompany and no
    publisherDisplayName in bundle.config.json, [build] goes on with an
    object whose publisher is CN=TestCompany and which has no
    publisherDisplayName. *)
Theorem buildConfig_publisherDisplayName_stays_undefined :
  exists config,
    buildConfig (testTauriConfig None)
                (testBundleConfig (Some "CN=TestCompany") None)
    = Continue config /\
    publisher config = Some "CN=TestCompany" /\
    publisherDisplayName config = None.
Proof.
  eexists. split; [reflexivity|]. split; reflexivity.
Qed.

(** *** What the block guarantees *)

Lemma or_else_nonempty o d : d <> EmptyString -> or_else o d <> EmptyString.
Proof.
  intros Hd. destruct o as [[|c s]|]; simpl; try exact Hd. discriminate.
Qed.

(** The object that the "Merge config" statement builds. *)
Definition mergedObject (tauriConfig : TauriConfig.t)
    (bundleConfig : BundleConfig.t) : configObject :=
  {| displayName :=
       afterSpread "displayName"
         (or_else (TauriConfig.productName tauriConfig) "App") bundleConfig;
     version :=
       afterSpread "version"
         (toFourPartVersion (or_else (TauriConfig.version tauriConfig) "1.0.0"))
         bundleConfig;
     description :=
       afterSpread "description"
         (or_else (shortDescriptionOf tauriConfig) "") bundleConfig;
     identifier :=
       afterSpread "identifier"
         (or_else (TauriConfig.identifier tauriConfig) "com.example.app")
         bundleConfig;
     spread := bundleConfig |}.

Lemma buildConfig_cases tauriConfig bundleConfig :
  buildConfig tauriConfig bundleConfig
  = match BundleConfig.capabilities bundleConfig with
    | Some capabilities =>
        match validateCapabilities capabilities with
        | [] => Continue (mergedObject tauriConfig bundleConfig)
        | errors =>
            Exit 1 ("Invalid capabilities in bundle.config.json:"
                    :: map (fun error => "  - " ++ error)%string errors)
        end
    | None => Continue (mergedObject tauriConfig bundleConfig)
    end.
Proof.
  unfold buildConfig.
  destruct (BundleConfig.capabilities bundleConfig) as [capabilities|];
    [|reflexivity].
  destruct (validateCapabilities capabilities); reflexivity.
Qed.

Lemma buildConfig_continues tauriConfig bundleConfig config :
  buildConfig tauriConfig bundleConfig = Continue config ->
  config = mergedObject tauriConfig bundleConfig.
Proof.
  rewrite buildConfig_cases. intros H.
  destruct (BundleConfig.capabilities bundleConfig) as [capabilities|].
  - destruct (validateCapabilities capabilities); [|discriminate].
    injection H as <-. reflexivity.
  - injection H as <-. reflexivity.
Qed.

(** A bundle.config.json with the keys version and displayName: they
    replace what was resolved from the app config, so the version is not
    brought to four segments and the display name is empty. *)
Example buildConfig_overwritten :
  buildConfig (testTauriConfig None)
    {| BundleConfig.publisher := Some "CN=TestCompany";
       BundleConfig.publisherDisplayName := None;
       BundleConfig.resourceIndex := None;
       BundleConfig.capabilities := None;
       BundleConfig.extensions := None;
       BundleConfig.signing := None;
       BundleConfig.otherKeys :=
         [("version", Merge.VString "9");
          ("displayName", Merge.VString EmptyString)] |}
  = Continue
      {| displayName := Merge.VString EmptyString;
         version := Merge.VString "9";
         description := Merge.VString EmptyString;
         identifier := Merge.VString "com.example.testapp";
         spread :=
           {| BundleConfig.publisher := Some "CN=TestCompany";
              BundleConfig.publisherDisplayName := None;
              BundleConfig.resourceIndex := None;
              BundleConfig.capabilities := None;
              BundleConfig.extensions := None;
              BundleConfig.signing := None;
              BundleConfig.otherKeys :=
                [("version", Merge.VString "9");
                 ("displayName", Merge.VString EmptyString)] |} |}.
Proof. reflexivity. Qed.

(** Property X9.  Whenever the block lets [build] go on, the properties of
    bundle.config.json are carried over unchanged, and each of the keys
    displayName, version, description and identifier that bundle.config.json
    has holds the value from that file, whatever it is.  A key of these that
    bundle.config.json does not have holds the value resolved from the app
    config: then the version has exactly four dot-separated segments, and
    the display name and the identifier are not empty. *)
Theorem buildConfig_resolved_fields :
  forall (tauriConfig : TauriConfig.t) (bundleConfig : BundleConfig.t)
         (config : configObject),
    buildConfig tauriConfig bundleConfig = Continue config ->
    spread config = bundleConfig /\
    (forall overwriting : Merge.value,
        (Merge.lookup "displayName" (BundleConfig.otherKeys bundleConfig)
         = Some overwriting -> displayName config = overwriting) /\
        (Merge.lookup "version" (BundleConfig.otherKeys bundleConfig)
         = Some overwriting -> version config = overwriting) /\
        (Merge.lookup "description" (BundleConfig.otherKeys bundleConfig)
         = Some overwriting -> description config = overwriting) /\
        (Merge.lookup "identifier" (BundleConfig.otherKeys bundleConfig)
         = Some overwriting -> identifier config = overwriting)) /\
    (Merge.lookup "displayName" (BundleConfig.otherKeys bundleConfig) = None ->
     exists name : string,
       displayName config = Merge.VString name /\ name <> EmptyString) /\
    (Merge.lookup "version" (BundleConfig.otherKeys bundleConfig) = None ->
     exists number : string,
       version config = Merge.VString number /\
       List.length (split "." number) = 4) /\
    (Merge.lookup "description" (BundleConfig.otherKeys bundleConfig) = None ->
     description config
     = Merge.VString (or_else (shortDescriptionOf tauriConfig) "")) /\
    (Merge.lookup "identifier" (BundleConfig.otherKeys bundleConfig) = None ->
     exists name : string,
       identifier config = Merge.VString name /\ name <> EmptyString).
Proof.
  intros tauriConfig bundleConfig config H.
  apply buildConfig_continues in H. subst config.
  unfold mergedObject, afterSpread.
  cbn [version displayName description identifier spread].
  split; [reflexivity|]. split; [|repeat split].
  - intros overwriting. repeat split; intros ->; reflexivity.
  - intros ->. eexists. split; [reflexivity|].
    apply or_else_nonempty. discriminate.
  - intros ->. eexists. split; [reflexivity|].
    apply toFourPartVersion_length.
  - intros ->. reflexivity.
  - intros ->. eexists. split; [reflexivity|].
    apply or_else_nonempty. discriminate.
Qed.

Lemma buildConfig_resolved_fields_witness :
  exists number : string,
    version (mergedObject (testTauriConfig None)
               (testBundleConfig (Some "CN=TestCompany") None))
    = Merge.VString number /\
    List.length (split "." number) = 4.
Proof.
  apply (proj1 (proj2 (proj2 (proj2
           (buildConfig_resolved_fields (testTauriConfig None)
              (testBundleConfig (Some "CN=TestCompany") None)
              (mergedObject (testTauriConfig None)
                 (testBundleConfig (Some "CN=TestCompany") None))
              eq_refl))))).
  reflexivity.
Defined.

(** Property X10.  The block stops the build exactly when bundle.config.json
    has a capabilities object with a token outside its category's
    vocabulary; it then exits with code 1 after a header line and one
    line for each violation.  Without a capabilities object nothing is
    validated and [build] goes on. *)
Theorem buildConfig_exits_iff_invalid :
  forall (tauriConfig : TauriConfig.t) (bundleConfig : BundleConfig.t),
    ((exists code stderr,
         buildConfig tauriConfig bundleConfig = Exit code stderr) <->
     (exists capabilities,
         BundleConfig.capabilities bundleConfig = Some capabilities /\
         allWhitelisted GENERAL_CAPABILITIES (general capabilities)
         && allWhitelisted DEVICE_CAPABILITIES (device capabilities)
         && allWhitelisted RESTRICTED_CAPABILITIES (restricted capabilities)
         = false)) /\
    (forall code stderr,
        buildConfig tauriConfig bundleConfig = Exit code stderr ->
        code = 1%Z /\
        exists capabilities,
          BundleConfig.capabilities bundleConfig = Some capabilities /\
          stderr = "Invalid capabilities in bundle.config.json:"
                   :: map (fun error => "  - " ++ error)%string
                          (validateCapabilities capabilities)).
Proof.
  intros tauriConfig bundleConfig.
  assert (Hempty : forall capabilities,
             validateCapabilities capabilities = [] <->
             allWhitelisted GENERAL_CAPABILITIES (general capabilities)
             && allWhitelisted DEVICE_CAPABILITIES (device capabilities)
             && allWhitelisted RESTRICTED_CAPABILITIES
                  (restricted capabilities) = true).
  { intros capabilities. rewrite validateCapabilities_by_category.
    rewrite !andb_true_iff.
    rewrite <- (violations_nil_iff "general"),
      <- (violations_nil_iff "device"), <- (violations_nil_iff "restricted").
    split.
    - intros H. apply app_eq_nil in H as [Hg H].
      apply app_eq_nil in H as [Hd Hr]. tauto.
    - intros [[Hg Hd] Hr]. now rewrite Hg, Hd, Hr. }
  rewrite buildConfig_cases.
  destruct (BundleConfig.capabilities bundleConfig) as [capabilities|].
  - specialize (Hempty capabilities).
    destruct (validateCapabilities capabilities) as [|e errors] eqn:Ev.
    + split.
      * split.
        -- intros (code & stderr & H). discriminate.
        -- intros (caps & Hcaps & Hfalse). inversion Hcaps; subst caps.
           rewrite (proj1 Hempty eq_refl) in Hfalse. discriminate.
      * intros code stderr H. discriminate.
    + split.
      * split.
        -- intros _. exists capabilities. split; [reflexivity|].
           apply not_true_is_false. intros Htrue.
           apply Hempty in Htrue. discriminate.
        -- intros _. now eexists; eexists.
      * intros code stderr H. inversion H; subst.
        split; [reflexivity|]. exists capabilities.
        split; [reflexivity | now rewrite Ev].
  - split.
    + split.
      * intros (code & stderr & H). discriminate.
      * intros (caps & Hcaps & _). discriminate.
    + intros code stderr H. discriminate.
Qed.

Lemma buildConfig_exits_iff_invalid_witness :
  1%Z = 1%Z /\
  exists capabilities,
    BundleConfig.capabilities
      {| BundleConfig.publisher := Some "CN=TestCompany";
         BundleConfig.publisherDisplayName := None;
         BundleConfig.resourceIndex := None;
         BundleConfig.capabilities :=
           Some {| general := Some ["invalidCapability"];
                   device := None; restricted := None |};
         BundleConfig.extensions := None;
         BundleConfig.signing := None;
         BundleConfig.otherKeys := [] |}
    = Some capabilities /\
    [ "Invalid capabilities in bundle.config.json:";
      ("  - Invalid general capability: " ++ dquote ++ "invalidCapability"
       ++ dquote ++ ". Valid: internetClient, internetClientServer, "
       ++ "privateNetworkClientServer, allJoyn, codeGeneration")%string ]
    = "Invalid capabilities in bundle.config.json:"
      :: map (fun error => "  - " ++ error)%string
             (validateCapabilities capabilities).
Proof.
  apply (proj2 (buildConfig_exits_iff_invalid
                  (testTauriConfig None)
                  {| BundleConfig.publisher := Some "CN=TestCompany";
                     BundleConfig.publisherDisplayName := None;
                     BundleConfig.resourceIndex := None;
                     BundleConfig.capabilities :=
                       Some {| general := Some ["invalidCapability"];
                               device := None; restricted := None |};
                     BundleConfig.extensions := None;
                     BundleConfig.signing := None;
                     BundleConfig.otherKeys := [] |})).
  reflexivity.
Defined.

End Build.

(* ================================================================== *)
(** ** The searches for a root directory
       ([findProjectRoot] of src/core/project-discovery.ts and
       [findPackageRoot] of src/core/manifest.ts) *)
(* ================================================================== *)

Module RootSearch.
Import Manifest.

(** A directory is the list of its names, the innermost first: the parent
    that [path.dirname] gives is the tail, and the root, which is its own
    parent, is the empty list.  [path.join(dir, a, b)] puts the names in
    front. *)
Definition path : Type := list string.

Definition dirname (dir : path) : path := tl dir.

Definition pathJoin (dir : path) (names : list string) : path :=
  rev names ++ dir.

Fixpoint samePath (a b : path) : bool :=
  match a, b with
  | [], [] => true
  | x :: a', y :: b' => String.eqb x y && samePath a' b'
  | _, _ => false
  end.

Section FileSystem.

(** [fs.existsSync]. *)
Variable existsSync : path -> bool.

(** The loop of [findProjectRoot]: each turn goes one directory up, so a
    turn for each name and one more are enough. *)
Fixpoint findProjectRootFrom (turns : nat) (dir : path) : outcome path :=
  match turns with
  | O =>
      Throw ("Could not find Tauri project root. "
             ++ "Make sure you are in a Tauri project directory.")
  | S turns' =>
      if negb (samePath dir (dirname dir)) then
        let tauriConfPath := pathJoin dir ["src-tauri"; "tauri.conf.json"] in
        if existsSync tauriConfPath then Return dir
        else
          let packageJsonPath := pathJoin dir ["package.json"] in
          if existsSync packageJsonPath
             && existsSync (pathJoin dir ["src-tauri"])
          then Return dir
          else findProjectRootFrom turns' (dirname dir)
      else
        Throw ("Could not find Tauri project root. "
               ++ "Make sure you are in a Tauri project directory.")
  end.

(** [findProjectRoot(startDir)], with the directory [process.cwd()]
    gives. *)
Definition findProjectRoot (startDir : option path) (cwd : path)
  : outcome path :=
  let dir := match startDir with Some dir => dir | None => cwd end in
  findProjectRootFrom (S (List.length dir)) dir.

(** The loop of [findPackageRoot]. *)
Fixpoint findPackageRootFrom (turns : nat) (dir : path) : outcome path :=
  match turns with
  | O => Throw "Could not find package root"
  | S turns' =>
      if negb (samePath dir (dirname dir)) then
        if existsSync (pathJoin dir ["package.json"]) then Return dir
        else findPackageRootFrom turns' (dirname dir)
      else Throw "Could not find package root"
  end.

Definition findPackageRoot (startDir : path) : outcome path :=
  findPackageRootFrom (S (List.length startDir)) startDir.

(** What makes a directory a project root for [findProjectRoot]. *)
Definition isProjectDir (dir : path) : bool :=
  existsSync (pathJoin dir ["src-tauri"; "tauri.conf.json"])
  || existsSync (pathJoin dir ["package.json"])
     && existsSync (pathJoin dir ["src-tauri"]).

(** What a search from [start] must give for the test [found]: the nearest
    directory at or above [start], the root left out, that passes the
    test; or the error when there is none. *)
Definition nearestAbove (found : path -> bool) (message : string)
    (start : path) (result : outcome path) : Prop :=
  match result with
  | Return dir =>
      exists up : nat,
        up < List.length start /\ dir = skipn up start /\
        found dir = true /\
        forall nearer, nearer < up -> found (skipn nearer start) = false
  | Throw thrown =>
      thrown = message /\
      forall up, up < List.length start -> found (skipn up start) = false
  end.

Lemma samePath_parent name (parent : path) :
  samePath (name :: parent) parent = false.
Proof.
  revert name.
  induction parent as [|n parent IH]; intros name; [reflexivity|].
  change (samePath (name :: n :: parent) (n :: parent))
    with (String.eqb name n && samePath (n :: parent) parent).
  rewrite IH. apply andb_false_r.
Qed.

Lemma nearestAbove_step found message name parent result :
  found (name :: parent) = false ->
  nearestAbove found message parent result ->
  nearestAbove found message (name :: parent) result.
Proof.
  intros Hhere. destruct result as [dir|thrown]; simpl.
  - intros (up & Hup & Hdir & Hfound & Hnearer).
    exists (S up). repeat split; try assumption; [lia|].
    intros [|nearer] Hlt; [exact Hhere | apply Hnearer; lia].
  - intros [Hmsg Hnone]. split; [exact Hmsg|].
    intros [|up] Hlt; [exact Hhere | apply Hnone; lia].
Qed.

Lemma findProjectRootFrom_nearest dir :
  forall turns,
    List.length dir < turns ->
    nearestAbove isProjectDir
      ("Could not find Tauri project root. "
       ++ "Make sure you are in a Tauri project directory.")
      dir (findProjectRootFrom turns dir).
Proof.
  induction dir as [|name parent IH]; intros [|turns] Hturns;
    try (simpl in Hturns; lia).
  - simpl. split; [reflexivity | intros up H; lia].
  - cbn [findProjectRootFrom dirname tl]. rewrite samePath_parent.
    cbn [negb]. cbv zeta.
    destruct (existsSync (pathJoin (name :: parent)
                            ["src-tauri"; "tauri.conf.json"])) eqn:H1.
    { exists 0. simpl. repeat split; try lia.
      unfold isProjectDir. now rewrite H1. }
    destruct (existsSync (pathJoin (name :: parent) ["package.json"])
              && existsSync (pathJoin (name :: parent) ["src-tauri"]))
      eqn:H2.
    { exists 0. simpl. repeat split; try lia.
      unfold isProjectDir. now rewrite H1, H2. }
    apply nearestAbove_step.
    + unfold isProjectDir. now rewrite H1, H2.
    + apply IH. simpl in Hturns. lia.
Qed.

Lemma findPackageRootFrom_nearest dir :
  forall turns,
    List.length dir < turns ->
    nearestAbove (fun dir => existsSync (pathJoin dir ["package.json"]))
      "Could not find package root" dir (findPackageRootFrom turns dir).
Proof.
  induction dir as [|name parent IH]; intros [|turns] Hturns;
    try (simpl in Hturns; lia).
  - simpl. split; [reflexivity | intros up H; lia].
  - cbn [findPackageRootFrom dirname tl]. rewrite samePath_parent.
    cbn [negb].
    destruct (existsSync (pathJoin (name :: parent) ["package.json"]))
      eqn:Hhere.
    + exists 0. simpl. repeat split; try assumption; lia.
    + apply nearestAbove_step; [exact Hhere|].
      apply IH. simpl in Hturns. lia.
Qed.

(** Property X5.  [findProjectRoot] gives the nearest directory, at or
    above the start, that holds src-tauri/tauri.conf.json, or both
    package.json and src-tauri; the topmost directory is never tried, even
    when it is a project.  When no directory below the top qualifies, the
    search throws "Could not find Tauri project root...". *)
Theorem findProjectRoot_nearest_project :
  forall (startDir : option path) (cwd : path),
    nearestAbove isProjectDir
      ("Could not find Tauri project root. "
       ++ "Make sure you are in a Tauri project directory.")
      (match startDir with Some dir => dir | None => cwd end)
      (findProjectRoot startDir cwd).
Proof.
  intros startDir cwd. unfold findProjectRoot.
  apply findProjectRootFrom_nearest. lia.
Qed.

(** Property X6.  [findPackageRoot] gives the nearest directory, at or
    above the start, that holds package.json, never the topmost one, and
    throws "Could not find package root" when there is none. *)
Theorem findPackageRoot_nearest_package :
  forall startDir : path,
    nearestAbove (fun dir => existsSync (pathJoin dir ["package.json"]))
      "Could not find package root" startDir (findPackageRoot startDir).
Proof.
  intros startDir. unfold findPackageRoot.
  apply findPackageRootFrom_nearest. lia.
Qed.

End FileSystem.

End RootSearch.

(* ================================================================== *)
(** ** src/utils/exec.ts: [isVersionSufficient] *)
(* ================================================================== *)

Module Exec.
Import Text.

(** A number as the comparisons of [isVersionSufficient] see it: an
    integer, or [None] for [NaN] and for [undefined], which compare false
    with everything.  The integers are exact; JavaScript's are up to 2^53
    in absolute value. *)
Definition number : Type := option Z.

Definition isSafeInteger (n : Z) : Prop :=
  (- 9007199254740992 <= n <= 9007199254740992)%Z.

Definition gt (a b : number) : bool :=
  match a, b with
  | Some x, Some y => (x >? y)%Z
  | _, _ => false
  end.

Definition lt (a b : number) : bool :=
  match a, b with
  | Some x, Some y => (x <? y)%Z
  | _, _ => false
  end.

Definition ge (a b : number) : bool :=
  match a, b with
  | Some x, Some y => (x >=? y)%Z
  | _, _ => false
  end.

Fixpoint trimStart (s : string) : string :=
  match s with
  | EmptyString => EmptyString
  | String c rest => if isWhitespace c then trimStart rest else s
  end.

Definition isDigit (c : ascii) : bool :=
  let n := nat_of_ascii c in ((48 <=? n) && (n <=? 57))%nat.

(** The value of the leading decimal digits of [s], after the value [acc]
    of the digits already read; [None] when there was no digit at all. *)
Fixpoint leadingDigits (acc : number) (s : string) : number :=
  match s with
  | EmptyString => acc
  | String c rest =>
      if isDigit c then
        let read := match acc with Some n => n | None => 0%Z end in
        leadingDigits (Some (10 * read + (Z.of_nat (nat_of_ascii c) - 48))%Z)
                      rest
      else acc
  end.

(** [parseInt(s, 10)]: white space is skipped, a sign is read, then the
    digits up to the first other character; without a digit the result
    is [NaN]. *)
Definition parseInt10 (s : string) : number :=
  match trimStart s with
  | String "-"%char rest => option_map Z.opp (leadingDigits None rest)
  | String "+"%char rest => leadingDigits None rest
  | unsigned => leadingDigits None unsigned
  end.

(** [parse] of [isVersionSufficient]. *)
Definition parse (v : string) : list number := map parseInt10 (split "." v).

(** [isVersionSufficient(version, minVersion)]. *)
Definition isVersionSufficient (version minVersion : string) : bool :=
  let major := nth 0 (parse version) None in
  let minor := nth 1 (parse version) None in
  let patch := nth 2 (parse version) None in
  let minMajor := nth 0 (parse minVersion) None in
  let minMinor := nth 1 (parse minVersion) None in
  let minPatch := nth 2 (parse minVersion) None in
  if gt major minMajor then true
  else if lt major minMajor then false
  else if gt minor minMinor then true
  else if lt minor minMinor then false
  else ge patch minPatch.

Definition MIN_MSIXBUNDLE_CLI_VERSION : string := "1.1.4".

Example parseInt10_samples :
  parseInt10 "17763" = Some 17763%Z /\ parseInt10 " -12abc" = Some (-12)%Z /\
  parseInt10 "0x10" = Some 0%Z /\ parseInt10 "beta" = None /\
  parseInt10 "" = None /\ parseInt10 "4-rc1" = Some 4%Z.
Proof. repeat split. Qed.

Lemma nth_firstn3 (l : list number) a b c :
  firstn 3 l = [a; b; c] -> nth 0 l None = a /\ nth 1 l None = b /\ nth 2 l None = c.
Proof.
  destruct l as [|x [|y [|z l]]]; simpl; intros H; inversion H; auto.
Qed.

(** Property X7.  When the first three segments of both versions are
    numbers (safe integers), [isVersionSufficient] is the lexicographic
    comparison of (major, minor, patch) with the minimum: true exactly when
    the version is greater or equal.  Further segments are ignored. *)
Theorem isVersionSufficient_lexicographic :
  forall (version minVersion : string) (a b c x y z : Z),
    firstn 3 (parse version) = [Some a; Some b; Some c] ->
    firstn 3 (parse minVersion) = [Some x; Some y; Some z] ->
    Forall isSafeInteger [a; b; c; x; y; z] ->
    (isVersionSufficient version minVersion = true <->
     (a > x \/ (a = x /\ (b > y \/ (b = y /\ c >= z))))%Z).
Proof.
  intros version minVersion a b c x y z Hv Hm _.
  unfold isVersionSufficient.
  apply nth_firstn3 in Hv as (-> & -> & ->).
  apply nth_firstn3 in Hm as (-> & -> & ->).
  cbn [gt lt ge].
  destruct (a >? x)%Z eqn:E1; [split; [lia | reflexivity]|].
  destruct (a <? x)%Z eqn:E2; [split; [discriminate | lia]|].
  destruct (b >? y)%Z eqn:E3; [split; [lia | reflexivity]|].
  destruct (b <? y)%Z eqn:E4; [split; [discriminate | lia]|].
  destruct (c >=? z)%Z eqn:E5; split; intros H; try reflexivity; try lia;
    try discriminate.
Qed.

Lemma isVersionSufficient_lexicographic_witness :
  isVersionSufficient "1.1.3.9" "1.1.4" = true <->
  (1 > 1 \/ (1 = 1 /\ (1 > 1 \/ (1 = 1 /\ 3 >= 4))))%Z.
Proof.
  apply (isVersionSufficient_lexicographic "1.1.3.9" "1.1.4" 1 1 3 1 1 4).
  - reflexivity.
  - reflexivity.
  - unfold isSafeInteger. repeat constructor; lia.
Defined.

(** Property X8.  A version is sufficient for itself exactly when its
    third segment is a number: a two-segment version such as "1.1", or one
    whose patch does not start with a digit, is rejected even against
    itself, because the comparison of the missing patches is false. *)
Theorem isVersionSufficient_self :
  forall version : string,
    isVersionSufficient version version
    = match nth 2 (parse version) None with
      | Some _ => true
      | None => false
      end
    /\ isVersionSufficient "1.1" "1.1" = false
    /\ isVersionSufficient "1.1.x" "1.1.x" = false
    /\ isVersionSufficient "1.1.4" "1.1.4" = true.
Proof.
  intros version. split; [|repeat split].
  unfold isVersionSufficient.
  assert (Hgt : forall n, gt n n = false)
    by (intros [n|]; simpl;
        [rewrite Z.gtb_ltb; apply Z.ltb_irrefl | reflexivity]).
  assert (Hlt : forall n, lt n n = false)
    by (intros [n|]; simpl; [apply Z.ltb_irrefl | reflexivity]).
  rewrite !Hgt, !Hlt.
  destruct (nth 2 (parse version) None) as [n|]; simpl; [|reflexivity].
  apply Z.geb_le. lia.
Qed.

End Exec.

(* ================================================================== *)
(** ** src/generators/assets.ts: the placeholder PNG *)
(* ================================================================== *)

Module Assets.
Import Text Manifest.

Local Open Scope Z_scope.

(** A buffer is the list of its bytes, each from 0 to 255. *)
Definition isByte (b : Z) : Prop := 0 <= b < 256.

(** [ToUint32], and the operators [^], [|], [>>] and [>>>] on 32-bit
    integers ([&] and [<<] are [bitAnd] and [shiftLeft]). *)
Definition toUint32 (x : Z) : Z := x mod 4294967296.

Definition bitXor (x y : Z) : Z := Z.lxor (toInt32 x) (toInt32 y).

Definition bitOr (x y : Z) : Z := Z.lor (toInt32 x) (toInt32 y).

Definition bitNot (x : Z) : Z := Z.lnot (toInt32 x).

Definition shiftRight (x n : Z) : Z := Z.shiftr (toInt32 x) (Z.land n 31).

Definition shiftRightUnsigned (x n : Z) : Z :=
  Z.shiftr (toUint32 x) (Z.land n 31).

(** [Buffer.from(array)]: each number is stored as its low eight bits. *)
Definition bufferFrom (array : list Z) : list Z :=
  map (fun n => Z.land n 255) array.

(** [Buffer.from(type, 'ascii')]. *)
Definition asciiBytes (s : string) : list Z :=
  map (fun code => Z.land code 255) (charCodes s).

(** [buf.writeUInt32BE(value, 0)] on a buffer of four bytes: [None] stands
    for the [RangeError] thrown when [value] is not from 0 to 2^32 - 1. *)
Definition writeUInt32BE (value : Z) : option (list Z) :=
  if (0 <=? value) && (value <=? 4294967295)
  then Some [ Z.land (Z.shiftr value 24) 255; Z.land (Z.shiftr value 16) 255;
              Z.land (Z.shiftr value 8) 255; Z.land value 255 ]
  else None.

(** One turn of the inner loop of [crc32]:
    [crc = crc & 1 ? (crc >>> 1) ^ 0xedb88320 : crc >>> 1]. *)
Definition crcTurn (crc : Z) : Z :=
  if negb (bitAnd crc 1 =? 0)
  then bitXor (shiftRightUnsigned crc 1) 3988292384
  else shiftRightUnsigned crc 1.

(** [crc32(data)]. *)
Definition crc32 (data : list Z) : Z :=
  let crc :=
    fold_left
      (fun crc byte =>
         let crc := bitXor crc byte in
         Nat.iter 8 crcTurn crc)
      data 4294967295 in
  bitXor crc 4294967295.

(** The two sums of [adler32] after the loop, from [a] and [b]. *)
Definition adlerSums (data : list Z) (a b : Z) : Z * Z :=
  fold_left
    (fun ab byte =>
       let a := Z.rem (fst ab + byte) 65521 in
       let b := Z.rem (snd ab + a) 65521 in
       (a, b))
    data (a, b).

(** [adler32(data)]. *)
Definition adler32 (data : list Z) : Z :=
  let ab := adlerSums data 1 0 in
  bitOr (shiftLeft (snd ab) 16) (fst ab).

(** The [while (remaining > 0)] loop of [deflateStore]: every turn takes
    at least one byte, so a turn for each byte is enough. *)
Fixpoint storeBlocks (turns : nat) (data : list Z) (offset remaining : Z)
    (result : list Z) : list Z :=
  match turns with
  | O => result
  | S turns' =>
      if 0 <? remaining then
        let blockSize := Z.min remaining 65535 in
        let isLast := remaining <=? 65535 in
        let result := result ++ [if isLast then 1 else 0] in
        let result := result ++ [bitAnd blockSize 255] in
        let result := result ++ [bitAnd (shiftRight blockSize 8) 255] in
        let result := result ++ [bitAnd (bitNot blockSize) 255] in
        let result :=
          result ++ [bitAnd (shiftRight (bitNot blockSize) 8) 255] in
        let result :=
          fold_left
            (fun result i =>
               result ++ [nth (Z.to_nat (offset + Z.of_nat i)) data 0])
            (seq 0 (Z.to_nat blockSize)) result in
        storeBlocks turns' data (offset + blockSize) (remaining - blockSize)
                    result
      else result
  end.

(** [deflateStore(data)]. *)
Definition deflateStore (data : list Z) : list Z :=
  let result := [120; 1] in
  let result :=
    storeBlocks (List.length data) data 0 (Z.of_nat (List.length data))
                result in
  let adler := adler32 data in
  let result := result ++ [bitAnd (shiftRight adler 24) 255] in
  let result := result ++ [bitAnd (shiftRight adler 16) 255] in
  let result := result ++ [bitAnd (shiftRight adler 8) 255] in
  let result := result ++ [bitAnd adler 255] in
  bufferFrom result.

(** [createChunk(type, data)]. *)
Definition createChunk (type : string) (data : list Z) : option (list Z) :=
  match writeUInt32BE (Z.of_nat (List.length data)) with
  | None => None
  | Some length =>
      let typeBuffer := asciiBytes type in
      let crcData := typeBuffer ++ data in
      let crc := crc32 crcData in
      match writeUInt32BE (shiftRightUnsigned crc 0) with
      | None => None
      | Some crcBuffer => Some (length ++ typeBuffer ++ data ++ crcBuffer)
      end
  end.

(** The rows that the two loops of [createPlaceholderPng] push: a filter
    byte and [width] grey pixels, [height] times. *)
Definition rawRows (width height : Z) : list Z :=
  fold_left
    (fun rawData _ =>
       let rawData := rawData ++ [0] in
       fold_left (fun rawData _ => rawData ++ [128; 128; 128])
                 (seq 0 (Z.to_nat width)) rawData)
    (seq 0 (Z.to_nat height)) [].

(** [createPlaceholderPng(width, height)] for integers. *)
Definition createPlaceholderPng (width height : Z) : option (list Z) :=
  let signature := [137; 80; 78; 71; 13; 10; 26; 10] in
  match writeUInt32BE width with
  | None => None
  | Some widthBytes =>
      match writeUInt32BE height with
      | None => None
      | Some heightBytes =>
          let ihdrData := widthBytes ++ heightBytes ++ [8; 2; 0; 0; 0] in
          match createChunk "IHDR" ihdrData with
          | None => None
          | Some ihdrChunk =>
              let rawData := rawRows width height in
              let uncompressed := bufferFrom rawData in
              let compressed := deflateStore uncompressed in
              match createChunk "IDAT" compressed with
              | None => None
              | Some idatChunk =>
                  match createChunk "IEND" [] with
                  | None => None
                  | Some iendChunk =>
                      Some (signature ++ ihdrChunk ++ idatChunk ++ iendChunk)
                  end
              end
          end
      end
  end.

(** The check values of the two checksums, and the well-known last chunk
    of every PNG file. *)
Example crc32_check :
  toUint32 (crc32 (asciiBytes "123456789")) = 3421780262.
Proof. vm_compute. reflexivity. Qed.

Example adler32_check : adler32 (asciiBytes "Wikipedia") = 300286872.
Proof. vm_compute. reflexivity. Qed.

Example iend_chunk :
  createChunk "IEND" [] = Some [0; 0; 0; 0; 73; 69; 78; 68; 174; 66; 96; 130].
Proof. vm_compute. reflexivity. Qed.

(** *** Signed and unsigned 32-bit words *)

Lemma toUint32_range x : 0 <= toUint32 x < 4294967296.
Proof. unfold toUint32. apply Z.mod_pos_bound. lia. Qed.

Lemma toUint32_small x : 0 <= x < 4294967296 -> toUint32 x = x.
Proof. intros H. unfold toUint32. now apply Z.mod_small. Qed.

Lemma toUint32_toInt32 x : toUint32 (toInt32 x) = toUint32 x.
Proof.
  destruct (toInt32_wraps x) as [k ->]. unfold toUint32.
  replace (x + 4294967296 * k) with (x + k * 4294967296) by lia.
  apply Z_mod_plus_full.
Qed.

(** A signed word and its unsigned reading differ by a multiple of 2^32. *)
Lemma toInt32_toUint32 x :
  exists k : Z, toInt32 x = toUint32 x + 4294967296 * k.
Proof.
  destruct (toInt32_wraps x) as [k Hk].
  exists (k + x / 4294967296). rewrite Hk. unfold toUint32.
  pose proof (Z.div_mod x 4294967296 ltac:(lia)). lia.
Qed.

Lemma toUint32_lxor a b :
  toUint32 (Z.lxor a b) = Z.lxor (toUint32 a) (toUint32 b).
Proof.
  unfold toUint32. change 4294967296 with (2 ^ 32).
  rewrite <- !Z.land_ones by lia.
  apply Z.bits_inj'. intros i Hi.
  rewrite Z.land_spec, !Z.lxor_spec, !Z.land_spec.
  destruct (Z.testbit a i), (Z.testbit b i), (Z.testbit (Z.ones 32) i);
    reflexivity.
Qed.

Lemma toUint32_lor a b :
  toUint32 (Z.lor a b) = Z.lor (toUint32 a) (toUint32 b).
Proof.
  unfold toUint32. change 4294967296 with (2 ^ 32).
  rewrite <- !Z.land_ones by lia.
  apply Z.bits_inj'. intros i Hi.
  rewrite Z.land_spec, !Z.lor_spec, !Z.land_spec.
  destruct (Z.testbit a i), (Z.testbit b i), (Z.testbit (Z.ones 32) i);
    reflexivity.
Qed.

Lemma toUint32_bitXor x y :
  toUint32 (bitXor x y) = Z.lxor (toUint32 x) (toUint32 y).
Proof.
  unfold bitXor. now rewrite toUint32_lxor, !toUint32_toInt32.
Qed.

(** The low eight bits of a word, shifted or not, are those of its
    unsigned reading. *)
Lemma low_byte x : bitAnd x 255 = toUint32 x mod 256.
Proof.
  unfold bitAnd. change (toInt32 255) with 255. change 255 with (Z.ones 8).
  rewrite Z.land_ones by lia. change (2 ^ 8) with 256.
  destruct (toInt32_toUint32 x) as [k ->].
  replace (toUint32 x + 4294967296 * k)
    with (toUint32 x + (16777216 * k) * 256) by lia.
  apply Z_mod_plus_full.
Qed.

Lemma shifted_byte x shift :
  shift = 8 \/ shift = 16 \/ shift = 24 ->
  bitAnd (shiftRight x shift) 255 = (toUint32 x / 2 ^ shift) mod 256.
Proof.
  intros Hshift.
  assert (Hland : Z.land shift 31 = shift)
    by (destruct Hshift as [->|[->| ->]]; reflexivity).
  unfold bitAnd, shiftRight. rewrite Hland.
  change (toInt32 255) with 255. change 255 with (Z.ones 8).
  rewrite Z.land_ones by lia. change (2 ^ 8) with 256.
  rewrite Z.shiftr_div_pow2 by lia.
  pose proof (toInt32_range x) as Hx.
  assert (Hq : -2147483648 <= toInt32 x / 2 ^ shift < 2147483648).
  { assert (0 < 2 ^ shift) by (apply Z.pow_pos_nonneg; lia).
    split.
    - apply Z.div_le_lower_bound; [lia|].
      destruct Hshift as [->|[->| ->]]; lia.
    - apply Z.div_lt_upper_bound; [lia|].
      destruct Hshift as [->|[->| ->]]; lia. }
  rewrite (toInt32_small _ Hq).
  destruct (toInt32_toUint32 x) as [k ->].
  destruct Hshift as [->|[->| ->]].
  - replace (toUint32 x + 4294967296 * k)
      with (toUint32 x + (16777216 * k) * 2 ^ 8) by lia.
    rewrite Z.div_add by lia.
    replace (16777216 * k) with (65536 * k * 256) by lia.
    apply Z_mod_plus_full.
  - replace (toUint32 x + 4294967296 * k)
      with (toUint32 x + (65536 * k) * 2 ^ 16) by lia.
    rewrite Z.div_add by lia.
    replace (65536 * k) with (256 * k * 256) by lia.
    apply Z_mod_plus_full.
  - replace (toUint32 x + 4294967296 * k)
      with (toUint32 x + (256 * k) * 2 ^ 24) by lia.
    rewrite Z.div_add by lia.
    replace (256 * k) with (k * 256) by lia.
    apply Z_mod_plus_full.
Qed.

(** *** The checksum of a chunk *)

(** The CRC-32 of PNG on unsigned words: reflected polynomial EDB88320,
    all ones at the start, all bits flipped at the end. *)
Definition crcTurnUnsigned (crc : Z) : Z :=
  if Z.odd crc then Z.lxor (crc / 2) 3988292384 else crc / 2.

Definition crc32Unsigned (data : list Z) : Z :=
  Z.lxor
    (fold_left (fun crc byte => Nat.iter 8 crcTurnUnsigned (Z.lxor crc byte))
               data 4294967295)
    4294967295.

Lemma crcTurn_unsigned crc :
  toUint32 (crcTurn crc) = crcTurnUnsigned (toUint32 crc).
Proof.
  unfold crcTurn, crcTurnUnsigned.
  assert (Hbit : bitAnd crc 1 = Z.b2z (Z.odd (toUint32 crc))).
  { unfold bitAnd. change (toInt32 1) with (Z.ones 1).
    rewrite Z.land_ones by lia. change (2 ^ 1) with 2.
    rewrite <- Z.bit0_mod, Z.bit0_odd.
    destruct (toInt32_toUint32 crc) as [k ->].
    replace (toUint32 crc + 4294967296 * k)
      with (toUint32 crc + 2 * (2147483648 * k)) by lia.
    now rewrite Z.odd_add_mul_2. }
  assert (Hshift : shiftRightUnsigned crc 1 = toUint32 crc / 2).
  { unfold shiftRightUnsigned. change (Z.land 1 31) with 1.
    now rewrite Z.shiftr_div_pow2 by lia. }
  pose proof (toUint32_range crc) as Hrange.
  assert (Hhalf : 0 <= toUint32 crc / 2 < 4294967296).
  { split; [apply Z.div_pos; lia|].
    apply Z.div_lt_upper_bound; lia. }
  rewrite Hbit, Hshift.
  destruct (Z.odd (toUint32 crc)); cbn [Z.b2z Z.eqb negb].
  - rewrite toUint32_bitXor, (toUint32_small _ Hhalf). reflexivity.
  - apply toUint32_small. exact Hhalf.
Qed.

Lemma crcTurns_unsigned turns crc :
  toUint32 (Nat.iter turns crcTurn crc)
  = Nat.iter turns crcTurnUnsigned (toUint32 crc).
Proof.
  induction turns as [|turns IH]; [reflexivity|].
  change (Nat.iter (S turns) crcTurn crc)
    with (crcTurn (Nat.iter turns crcTurn crc)).
  change (Nat.iter (S turns) crcTurnUnsigned (toUint32 crc))
    with (crcTurnUnsigned (Nat.iter turns crcTurnUnsigned (toUint32 crc))).
  now rewrite crcTurn_unsigned, IH.
Qed.

Lemma crcBytes_unsigned data crc :
  Forall isByte data ->
  toUint32 (fold_left (fun crc byte => Nat.iter 8 crcTurn (bitXor crc byte))
                      data crc)
  = fold_left (fun crc byte => Nat.iter 8 crcTurnUnsigned (Z.lxor crc byte))
              data (toUint32 crc).
Proof.
  intros Hbytes. revert crc.
  induction Hbytes as [|byte data Hbyte _ IH]; intros crc; [reflexivity|].
  cbn [fold_left]. rewrite IH, crcTurns_unsigned, toUint32_bitXor.
  rewrite (toUint32_small byte) by (unfold isByte in Hbyte; lia).
  reflexivity.
Qed.

Lemma crc32_unsigned data :
  Forall isByte data ->
  shiftRightUnsigned (crc32 data) 0 = crc32Unsigned data.
Proof.
  intros Hbytes. unfold shiftRightUnsigned.
  change (Z.land 0 31) with 0. rewrite Z.shiftr_0_r.
  unfold crc32, crc32Unsigned.
  rewrite toUint32_bitXor, (crcBytes_unsigned data _ Hbytes).
  reflexivity.
Qed.

Lemma crc32Unsigned_range data :
  Forall isByte data -> 0 <= crc32Unsigned data < 4294967296.
Proof.
  intros Hbytes. rewrite <- (crc32_unsigned data Hbytes).
  unfold shiftRightUnsigned. change (Z.land 0 31) with 0.
  rewrite Z.shiftr_0_r. apply toUint32_range.
Qed.

(** Property X11.  Although [crc32] works on signed 32-bit numbers and may
    return a negative one, the value [crc >>> 0] that [createChunk] writes
    is the CRC-32 of the bytes computed on unsigned words, and it is always
    in the range [writeUInt32BE] accepts. *)
Theorem crc32_is_unsigned_crc :
  forall data : list Z,
    Forall isByte data ->
    shiftRightUnsigned (crc32 data) 0 = crc32Unsigned data /\
    0 <= shiftRightUnsigned (crc32 data) 0 <= 4294967295 /\
    -2147483648 <= crc32 data < 2147483648.
Proof.
  intros data Hbytes. split; [now apply crc32_unsigned|]. split.
  - rewrite crc32_unsigned by exact Hbytes.
    pose proof (crc32Unsigned_range data Hbytes). lia.
  - unfold crc32. cbv zeta.
    set (crc := fold_left _ data 4294967295).
    unfold bitXor. change (toInt32 4294967295) with (-1).
    rewrite Z.lxor_m1_r, Z.lnot_eq_pred_opp.
    pose proof (toInt32_range crc). lia.
Qed.

Lemma crc32_is_unsigned_crc_witness :
  shiftRightUnsigned (crc32 [73; 69; 78; 68]) 0
  = crc32Unsigned [73; 69; 78; 68] /\
  0 <= shiftRightUnsigned (crc32 [73; 69; 78; 68]) 0 <= 4294967295 /\
  -2147483648 <= crc32 [73; 69; 78; 68] < 2147483648.
Proof.
  apply (crc32_is_unsigned_crc [73; 69; 78; 68]).
  unfold isByte. repeat constructor; lia.
Defined.

(** *** Four bytes, most significant first *)

Definition bigEndian32 (u : Z) : list Z :=
  [ (u / 16777216) mod 256; (u / 65536) mod 256; (u / 256) mod 256;
    u mod 256 ].

(** [buf.readUInt32BE(0)] on four bytes. *)
Definition readUInt32BE (bytes : list Z) : option Z :=
  match bytes with
  | [b3; b2; b1; b0] => Some (b3 * 16777216 + b2 * 65536 + b1 * 256 + b0)
  | _ => None
  end.

Lemma readUInt32BE_bigEndian32 u :
  0 <= u < 4294967296 -> readUInt32BE (bigEndian32 u) = Some u.
Proof.
  intros Hu. unfold bigEndian32, readUInt32BE. f_equal.
  assert (E1 : u / 256 / 256 = u / 65536)
    by (rewrite Z.div_div by lia; reflexivity).
  assert (E2 : u / 65536 / 256 = u / 16777216)
    by (rewrite Z.div_div by lia; reflexivity).
  pose proof (Z.div_mod u 256 ltac:(lia)) as H1.
  pose proof (Z.div_mod (u / 256) 256 ltac:(lia)) as H2.
  pose proof (Z.div_mod (u / 65536) 256 ltac:(lia)) as H3.
  rewrite E1 in H2. rewrite E2 in H3.
  assert (H4 : 0 <= u / 16777216 < 256).
  { split; [apply Z.div_pos; lia | apply Z.div_lt_upper_bound; lia]. }
  rewrite (Z.mod_small (u / 16777216) 256) by lia.
  lia.
Qed.

Lemma bigEndian32_bytes u : Forall isByte (bigEndian32 u).
Proof.
  unfold bigEndian32, isByte.
  repeat constructor; apply Z.mod_pos_bound; lia.
Qed.

Lemma writeUInt32BE_inside value :
  0 <= value <= 4294967295 ->
  writeUInt32BE value = Some (bigEndian32 value).
Proof.
  intros H. unfold writeUInt32BE, bigEndian32.
  replace ((0 <=? value) && (value <=? 4294967295)) with true
    by (symmetry; apply andb_true_iff; split; apply Z.leb_le; lia).
  change 255 with (Z.ones 8). rewrite !Z.land_ones by lia.
  rewrite !Z.shiftr_div_pow2 by lia. reflexivity.
Qed.

Lemma writeUInt32BE_outside value :
  value < 0 \/ 4294967295 < value -> writeUInt32BE value = None.
Proof.
  intros H. unfold writeUInt32BE.
  replace ((0 <=? value) && (value <=? 4294967295)) with false;
    [reflexivity|].
  symmetry. apply andb_false_iff.
  destruct H; [left; apply Z.leb_gt | right; apply Z.leb_gt]; lia.
Qed.

(** The four bytes [deflateStore] takes from a word with [>>] and [&]. *)
Lemma word_bytes x :
  [ bitAnd (shiftRight x 24) 255; bitAnd (shiftRight x 16) 255;
    bitAnd (shiftRight x 8) 255; bitAnd x 255 ]
  = bigEndian32 (toUint32 x).
Proof.
  unfold bigEndian32.
  rewrite !shifted_byte by tauto. now rewrite low_byte.
Qed.

(** *** The Adler-32 checksum *)

Definition byteSum (data : list Z) : Z := fold_right Z.add 0 data.

(** Each byte counted once for itself and once for every byte after it. *)
Fixpoint weightedSum (data : list Z) : Z :=
  match data with
  | [] => 0
  | byte :: rest => (Z.of_nat (List.length rest) + 1) * byte + weightedSum rest
  end.

Definition adlerValue (data : list Z) : Z :=
  ((Z.of_nat (List.length data) + weightedSum data) mod 65521) * 65536
  + (1 + byteSum data) mod 65521.

Lemma mod_plus_multiple x k m : (x + m * k) mod m = x mod m.
Proof.
  replace (x + m * k) with (x + k * m) by lia. apply Z_mod_plus_full.
Qed.

Lemma byteSum_nonneg data : Forall isByte data -> 0 <= byteSum data.
Proof.
  induction 1 as [|b data Hb _ IH]; simpl; [lia|].
  unfold isByte in Hb. lia.
Qed.

Lemma adlerSums_closed data :
  Forall isByte data ->
  forall a b,
    0 <= a < 65521 -> 0 <= b < 65521 ->
    adlerSums data a b
    = ((a + byteSum data) mod 65521,
       (b + Z.of_nat (List.length data) * a + weightedSum data) mod 65521).
Proof.
  induction 1 as [|byte data Hbyte Hdata IH]; intros a b Ha Hb.
  - unfold adlerSums.
    cbn [fold_left byteSum fold_right weightedSum List.length].
    change (Z.of_nat 0) with 0.
    rewrite Z.mul_0_l, !Z.add_0_r, !Z.mod_small by lia. reflexivity.
  - unfold isByte in Hbyte. unfold adlerSums in *. cbn [fold_left fst snd].
    rewrite (Z.rem_mod_nonneg (a + byte)) by lia.
    assert (Ha' : 0 <= (a + byte) mod 65521 < 65521)
      by (apply Z.mod_pos_bound; lia).
    rewrite (Z.rem_mod_nonneg (b + _)) by lia.
    assert (Hb' : 0 <= (b + (a + byte) mod 65521) mod 65521 < 65521)
      by (apply Z.mod_pos_bound; lia).
    rewrite (IH _ _ Ha' Hb').
    pose proof (Z.div_mod (a + byte) 65521 ltac:(lia)) as H1.
    pose proof (Z.div_mod (b + (a + byte) mod 65521) 65521 ltac:(lia)) as H2.
    set (a1 := (a + byte) mod 65521) in *.
    set (b1 := (b + a1) mod 65521) in *.
    set (k1 := (a + byte) / 65521) in *.
    set (k2 := (b + a1) / 65521) in *.
    set (n := Z.of_nat (List.length data)).
    cbn [byteSum fold_right weightedSum List.length].
    fold (byteSum data).
    replace (Z.of_nat (S (List.length data))) with (n + 1) by lia.
    fold n.
    f_equal.
    + replace (a + (byte + byteSum data))
        with (a1 + byteSum data + 65521 * k1) by lia.
      now rewrite mod_plus_multiple.
    + replace (b + (n + 1) * a + ((n + 1) * byte + weightedSum data))
        with (b1 + n * a1 + weightedSum data + 65521 * (k2 + (n + 1) * k1)).
      * now rewrite mod_plus_multiple.
      * assert (a + byte = a1 + 65521 * k1) by lia.
        assert (b + a1 = b1 + 65521 * k2) by lia.
        replace ((n + 1) * a + (n + 1) * byte) with ((n + 1) * (a + byte))
          by ring.
        replace (b + (n + 1) * a + ((n + 1) * byte + weightedSum data))
          with (b + (n + 1) * (a + byte) + weightedSum data) by ring.
        rewrite H. replace b with (b1 + 65521 * k2 - a1) by lia. ring.
Qed.

Lemma land_high_low high low :
  0 <= low < 65536 -> Z.land (high * 65536) low = 0.
Proof.
  intros Hlow. apply Z.bits_inj'. intros i Hi.
  rewrite Z.land_spec, Z.bits_0.
  destruct (Z.lt_ge_cases i 16) as [Hlt|Hge].
  - change 65536 with (2 ^ 16). now rewrite Z.mul_pow2_bits_low.
  - rewrite <- (Z.mod_small low (2 ^ 16)) by (change (2 ^ 16) with 65536; lia).
    rewrite Z.mod_pow2_bits_high by lia. apply andb_false_r.
Qed.

Lemma adler32_unsigned data :
  Forall isByte data -> toUint32 (adler32 data) = adlerValue data.
Proof.
  intros Hbytes. unfold adler32, adlerValue. cbv zeta.
  rewrite (adlerSums_closed data Hbytes 1 0) by lia. cbn [fst snd].
  rewrite Z.mul_1_r, Z.add_0_l.
  set (a := (1 + byteSum data) mod 65521).
  set (b := (Z.of_nat (List.length data) + weightedSum data) mod 65521).
  assert (Ha : 0 <= a < 65521) by (apply Z.mod_pos_bound; lia).
  assert (Hb : 0 <= b < 65521) by (apply Z.mod_pos_bound; lia).
  unfold bitOr, shiftLeft. rewrite toUint32_lor, !toUint32_toInt32.
  change (Z.land 16 31) with 16. rewrite Z.shiftl_mul_pow2 by lia.
  change (2 ^ 16) with 65536.
  rewrite (toInt32_small b) by lia.
  rewrite (toUint32_small (b * 65536)), (toUint32_small a) by lia.
  pose proof (Z.add_lor_land (b * 65536) a) as Hadd.
  rewrite land_high_low in Hadd by lia. lia.
Qed.

(** Property X12.  [adler32] may return a negative number, but read as an
    unsigned word it is b * 65536 + a, where a is one plus the sum of the
    bytes and b is the number of bytes plus the sum of each byte times the
    count of bytes from it to the end, both modulo 65521; and the four
    bytes that [deflateStore] takes from it with [>>] and [&] are that
    word, most significant byte first. *)
Theorem adler32_value_and_bytes :
  forall data : list Z,
    Forall isByte data ->
    toUint32 (adler32 data) = adlerValue data /\
    [ bitAnd (shiftRight (adler32 data) 24) 255;
      bitAnd (shiftRight (adler32 data) 16) 255;
      bitAnd (shiftRight (adler32 data) 8) 255;
      bitAnd (adler32 data) 255 ]
    = bigEndian32 (adlerValue data) /\
    readUInt32BE (bigEndian32 (adlerValue data)) = Some (adlerValue data).
Proof.
  intros data Hbytes.
  pose proof (adler32_unsigned data Hbytes) as Hvalue.
  split; [exact Hvalue|]. split.
  - now rewrite word_bytes, Hvalue.
  - apply readUInt32BE_bigEndian32. rewrite <- Hvalue. apply toUint32_range.
Qed.

Lemma adler32_value_and_bytes_witness :
  toUint32 (adler32 [0; 128; 128; 128]) = adlerValue [0; 128; 128; 128] /\
  [ bitAnd (shiftRight (adler32 [0; 128; 128; 128]) 24) 255;
    bitAnd (shiftRight (adler32 [0; 128; 128; 128]) 16) 255;
    bitAnd (shiftRight (adler32 [0; 128; 128; 128]) 8) 255;
    bitAnd (adler32 [0; 128; 128; 128]) 255 ]
  = bigEndian32 (adlerValue [0; 128; 128; 128]) /\
  readUInt32BE (bigEndian32 (adlerValue [0; 128; 128; 128]))
  = Some (adlerValue [0; 128; 128; 128]).
Proof.
  apply (adler32_value_and_bytes [0; 128; 128; 128]).
  unfold isByte. repeat constructor; lia.
Defined.

(** *** Stored blocks *)

(** Reading back stored blocks (type 00 of the deflate format): a header
    of five bytes (the final flag, the length and its complement, low byte
    first) and then that many bytes as they are.  The result is the data
    and what follows the final block. *)
Fixpoint inflateStored (turns : nat) (stream : list Z)
  : option (list Z * list Z) :=
  match turns with
  | O => None
  | S turns' =>
      match stream with
      | final :: len0 :: len1 :: nlen0 :: nlen1 :: rest =>
          let len := len0 + 256 * len1 in
          if (nlen0 + 256 * nlen1 =? 65535 - len)
             && (len <=? Z.of_nat (List.length rest))
          then
            let payload := firstn (Z.to_nat len) rest in
            let rest := skipn (Z.to_nat len) rest in
            if final =? 1 then Some (payload, rest)
            else if final =? 0 then
              match inflateStored turns' rest with
              | Some (more, tail) => Some (payload ++ more, tail)
              | None => None
              end
            else None
          else None
      | _ => None
      end
  end.

(** Reading back a zlib stream of stored blocks: the header 78 01, the
    blocks, and the checksum in four bytes. *)
Definition zlibStoredDecode (stream : list Z) : option (list Z * Z) :=
  match stream with
  | 120 :: 1 :: body =>
      match inflateStored (List.length body) body with
      | Some (data, trailer) =>
          match readUInt32BE trailer with
          | Some checksum => Some (data, checksum)
          | None => None
          end
      | None => None
      end
  | _ => None
  end.

Lemma fold_push {A B : Type} (f : B -> A) (items : list B) (acc : list A) :
  fold_left (fun acc item => acc ++ [f item]) items acc = acc ++ map f items.
Proof.
  revert acc.
  induction items as [|item items IH]; intros acc; simpl.
  - now rewrite app_nil_r.
  - rewrite IH. now rewrite <- app_assoc.
Qed.

Lemma copy_is_slice (data : list Z) :
  forall count offset : nat,
    (offset + count <= List.length data)%nat ->
    map (fun i => nth (offset + i) data 0) (seq 0 count)
    = firstn count (skipn offset data).
Proof.
  induction count as [|count IH]; intros offset Hlen; [reflexivity|].
  cbn [seq map]. rewrite <- seq_shift, map_map.
  assert (Hskip : skipn offset data
                  = nth offset data 0 :: skipn (S offset) data).
  { clear IH. revert offset Hlen.
    induction data as [|d data IHd]; intros offset Hlen;
      [simpl in Hlen; lia|].
    destruct offset as [|offset]; [reflexivity|].
    cbn [skipn nth]. apply IHd. simpl in Hlen. lia. }
  rewrite Hskip. cbn [firstn]. rewrite Nat.add_0_r. f_equal.
  rewrite <- (IH (S offset)) by lia.
  apply map_ext. intros i. f_equal. lia.
Qed.

Lemma storeBlocks_done turns data offset remaining result :
  remaining <= 0 -> storeBlocks turns data offset remaining result = result.
Proof.
  intros H. destruct turns as [|turns]; [reflexivity|].
  cbn [storeBlocks].
  replace (0 <? remaining) with false by (symmetry; apply Z.ltb_ge; lia).
  reflexivity.
Qed.

Lemma two_bytes u : u mod 256 + 256 * ((u / 256) mod 256) = u mod 65536.
Proof.
  change 65536 with (256 * 256). now rewrite Z.rem_mul_r by lia.
Qed.

Lemma bitAnd_255_byte x : isByte (bitAnd x 255).
Proof. rewrite low_byte. apply Z.mod_pos_bound. lia. Qed.

(** The length of a block and its complement, as the header has them. *)
Lemma header_length blockSize :
  0 <= blockSize <= 65535 ->
  bitAnd blockSize 255 + 256 * bitAnd (shiftRight blockSize 8) 255
  = blockSize /\
  bitAnd (bitNot blockSize) 255
  + 256 * bitAnd (shiftRight (bitNot blockSize) 8) 255
  = 65535 - blockSize.
Proof.
  intros H.
  rewrite !shifted_byte by tauto. rewrite !low_byte.
  change (2 ^ 8) with 256.
  rewrite !two_bytes. split.
  - rewrite toUint32_small by lia. apply Z.mod_small. lia.
  - unfold bitNot.
    rewrite toInt32_small by lia. rewrite Z.lnot_eq_pred_opp.
    unfold toUint32.
    replace (- blockSize - 1)
      with (4294967295 - blockSize + 4294967296 * (-1)) by lia.
    rewrite mod_plus_multiple, (Z.mod_small (4294967295 - blockSize)) by lia.
    replace (4294967295 - blockSize)
      with (65535 - blockSize + 65536 * 65535) by lia.
    rewrite mod_plus_multiple. apply Z.mod_small. lia.
Qed.

Lemma firstn_skipn_exact {A : Type} (front back : list A) n :
  List.length front = n ->
  firstn n (front ++ back) = front /\ skipn n (front ++ back) = back.
Proof.
  intros <-. split.
  - rewrite firstn_app, Nat.sub_diag, firstn_all. simpl. apply app_nil_r.
  - rewrite skipn_app, Nat.sub_diag, skipn_all. reflexivity.
Qed.

Lemma Forall_drop {A : Type} (P : A -> Prop) n (l : list A) :
  Forall P l -> Forall P (skipn n l).
Proof.
  intros H. revert n.
  induction H as [|x l Hx Hl IH]; intros [|n]; simpl; auto.
Qed.

(** What the loop appends, seen from the reader. *)
Lemma storeBlocks_spec turns :
  forall (data : list Z) (offset remaining : Z) (result : list Z),
    0 <= offset -> 0 < remaining ->
    offset + remaining = Z.of_nat (List.length data) ->
    remaining <= Z.of_nat turns ->
    Forall isByte data ->
    exists blocks : list Z,
      storeBlocks turns data offset remaining result = result ++ blocks /\
      Forall isByte blocks /\
      Z.of_nat (List.length blocks)
      = remaining + 5 * ((remaining + 65534) / 65535) /\
      forall (tail : list Z) (fuel : nat),
        (Z.to_nat remaining <= fuel)%nat ->
        inflateStored fuel (blocks ++ tail)
        = Some (skipn (Z.to_nat offset) data, tail).
Proof.
  induction turns as [|turns IH];
    intros data offset remaining result Hoff Hrem Hsum Hturns Hbytes; [lia|].
  cbn [storeBlocks].
  replace (0 <? remaining) with true by (symmetry; apply Z.ltb_lt; lia).
  cbv zeta.
  set (blockSize := Z.min remaining 65535).
  assert (Hsize : 0 < blockSize <= 65535) by (unfold blockSize; lia).
  assert (Hle : blockSize <= remaining) by (unfold blockSize; lia).
  rewrite (fold_push
             (fun i => nth (Z.to_nat (offset + Z.of_nat i)) data 0)).
  rewrite (map_ext _ (fun i => nth (Z.to_nat offset + i) data 0))
    by (intros i; f_equal; lia).
  rewrite copy_is_slice by lia.
  set (payload := firstn (Z.to_nat blockSize) (skipn (Z.to_nat offset) data)).
  assert (Hpayload : List.length payload = Z.to_nat blockSize).
  { unfold payload. rewrite length_firstn, length_skipn. lia. }
  assert (Hpayload_bytes : Forall isByte payload).
  { unfold payload. apply (Forall_slice0 isByte). now apply Forall_drop. }
  destruct (header_length blockSize ltac:(lia)) as [Hlen Hnlen].
  set (flag := if remaining <=? 65535 then 1 else 0).
  set (len0 := bitAnd blockSize 255) in *.
  set (len1 := bitAnd (shiftRight blockSize 8) 255) in *.
  set (nlen0 := bitAnd (bitNot blockSize) 255) in *.
  set (nlen1 := bitAnd (shiftRight (bitNot blockSize) 8) 255) in *.
  assert (Hheader : Forall isByte [flag; len0; len1; nlen0; nlen1]).
  { constructor;
      [unfold flag, isByte; destruct (remaining <=? 65535); lia|].
    repeat (constructor; [apply bitAnd_255_byte|]). constructor. }
  assert (Hshape :
    (((((result ++ [flag]) ++ [len0]) ++ [len1]) ++ [nlen0]) ++ [nlen1])
    ++ payload
    = result ++ ([flag; len0; len1; nlen0; nlen1] ++ payload))
    by (rewrite <- !app_assoc; reflexivity).
  rewrite Hshape. clear Hshape.
  assert (Hread : forall rest fuel,
    inflateStored (S fuel)
      (([flag; len0; len1; nlen0; nlen1] ++ payload) ++ rest)
    = if flag =? 1 then Some (payload, rest)
      else match inflateStored fuel rest with
           | Some (more, tail) => Some (payload ++ more, tail)
           | None => None
           end).
  { intros rest fuel. rewrite <- app_assoc.
    cbn [app inflateStored]. rewrite Hlen, Hnlen.
    rewrite Z.eqb_refl.
    replace (blockSize <=? Z.of_nat (List.length (payload ++ rest)))
      with true
      by (symmetry; apply Z.leb_le; rewrite length_app; lia).
    cbn [andb].
    destruct (firstn_skipn_exact payload rest _ Hpayload) as [-> ->].
    unfold flag. destruct (remaining <=? 65535); reflexivity. }
  destruct (Z.leb_spec remaining 65535) as [Hlast|Hmore].
  - (* the final block *)
    assert (Hblock : blockSize = remaining) by (unfold blockSize; lia).
    rewrite storeBlocks_done by lia.
    exists ([flag; len0; len1; nlen0; nlen1] ++ payload).
    split; [reflexivity|]. split; [now apply Forall_app|]. split.
    + rewrite length_app, Hpayload. cbn [List.length].
      replace ((remaining + 65534) / 65535) with 1
        by (apply (Z.div_unique _ _ 1 (remaining - 1)); lia).
      lia.
    + intros tail [|fuel] Hfuel; [lia|].
      rewrite Hread. subst flag. change (1 =? 1) with true. cbv iota.
      f_equal. f_equal. unfold payload.
      apply firstn_all2. rewrite length_skipn. lia.
  - (* a full block, and more to come *)
    assert (Hblock : blockSize = 65535) by (unfold blockSize; lia).
    destruct (IH data (offset + blockSize) (remaining - blockSize)
                (result ++ ([flag; len0; len1; nlen0; nlen1] ++ payload))
                ltac:(lia) ltac:(lia) ltac:(lia) ltac:(lia) Hbytes)
      as (blocks & Hstore & Hblocks & Hcount & Hdecode).
    exists (([flag; len0; len1; nlen0; nlen1] ++ payload) ++ blocks).
    split; [rewrite Hstore; now rewrite <- !app_assoc|].
    split; [apply Forall_app; split; [now apply Forall_app | exact Hblocks]|].
    split.
    + rewrite !length_app, Hpayload. cbn [List.length].
      rewrite Nat2Z.inj_add, Hcount. rewrite Hblock.
      replace (remaining + 65534)
        with (remaining - 65535 + 65534 + 1 * 65535) by lia.
      rewrite Z.div_add by lia. lia.
    + intros tail [|fuel] Hfuel; [lia|].
      rewrite <- app_assoc with (n := tail).
      rewrite Hread. subst flag. change (0 =? 1) with false. cbv iota.
      rewrite Hdecode by lia.
      f_equal. f_equal. unfold payload.
      replace (Z.to_nat (offset + blockSize))
        with (Z.to_nat blockSize + Z.to_nat offset)%nat by lia.
      rewrite <- skipn_skipn. apply firstn_skipn.
Qed.

Lemma bufferFrom_bytes bytes : Forall isByte bytes -> bufferFrom bytes = bytes.
Proof.
  unfold bufferFrom. induction 1 as [|b bytes Hb _ IH]; [reflexivity|].
  cbn [map]. rewrite IH. f_equal.
  change 255 with (Z.ones 8). rewrite Z.land_ones by lia.
  apply Z.mod_small. exact Hb.
Qed.

Lemma bufferFrom_isByte array : Forall isByte (bufferFrom array).
Proof.
  unfold bufferFrom. apply Forall_forall. intros b Hin.
  apply in_map_iff in Hin as (n & <- & _).
  change 255 with (Z.ones 8). rewrite Z.land_ones by lia.
  apply Z.mod_pos_bound. lia.
Qed.

(** The stream [deflateStore] builds: header, blocks, checksum. *)
Lemma deflateStore_stream data :
  Forall isByte data ->
  exists blocks : list Z,
    deflateStore data = [120; 1] ++ blocks ++ bigEndian32 (adlerValue data) /\
    Forall isByte blocks /\
    Z.of_nat (List.length blocks)
    = Z.of_nat (List.length data)
      + 5 * ((Z.of_nat (List.length data) + 65534) / 65535) /\
    (data <> [] ->
     forall tail,
       inflateStored (List.length (blocks ++ tail)) (blocks ++ tail)
       = Some (data, tail)) /\
    (data = [] -> blocks = []).
Proof.
  intros Hbytes. unfold deflateStore. cbv zeta.
  assert (Htrailer : forall front,
    (((front ++ [bitAnd (shiftRight (adler32 data) 24) 255])
      ++ [bitAnd (shiftRight (adler32 data) 16) 255])
     ++ [bitAnd (shiftRight (adler32 data) 8) 255])
    ++ [bitAnd (adler32 data) 255]
    = front ++ bigEndian32 (adlerValue data)).
  { intros front. rewrite <- !app_assoc. cbn [app].
    now rewrite word_bytes, adler32_unsigned. }
  rewrite Htrailer.
  destruct data as [|d data'] eqn:Hdata.
  - exists []. cbn [storeBlocks List.length app].
    split; [apply bufferFrom_bytes|].
    + constructor; [unfold isByte; lia|].
      constructor; [unfold isByte; lia|]. apply bigEndian32_bytes.
    + split; [constructor|]. split; [reflexivity|].
      split; [congruence | reflexivity].
  - rewrite <- Hdata in *.
    assert (Hpos : 0 < Z.of_nat (List.length data))
      by (rewrite Hdata; cbn [List.length]; lia).
    destruct (storeBlocks_spec (List.length data) data 0
                (Z.of_nat (List.length data)) [120; 1]
                ltac:(lia) Hpos ltac:(lia) ltac:(lia) Hbytes)
      as (blocks & Hstore & Hblocks & Hcount & Hdecode).
    exists blocks. rewrite Hstore, <- app_assoc.
    split; [apply bufferFrom_bytes|].
    + apply Forall_app. split.
      * constructor; [unfold isByte; lia|].
        constructor; [unfold isByte; lia | constructor].
      * apply Forall_app. split; [exact Hblocks | apply bigEndian32_bytes].
    + split; [exact Hblocks|]. split; [exact Hcount|]. split.
      * intros _ tail. rewrite Hdecode; [reflexivity|].
        rewrite length_app.
        assert (0 <= (Z.of_nat (List.length data) + 65534) / 65535)
          by (apply Z.div_pos; lia).
        lia.
      * intros Hnil. rewrite Hnil in Hdata. discriminate.
Qed.

(** Property X13.  For data that is not empty, what [deflateStore] returns
    reads back as a zlib stream of stored blocks: the header 78 01, blocks
    whose lengths and complements agree and of which only the last is
    marked final, carrying the data unchanged, and the Adler-32 of the
    data in the last four bytes.  Its length is the data's plus six, plus
    five for every block of at most 65535 bytes. *)
Theorem deflateStore_round_trip :
  forall data : list Z,
    data <> [] ->
    Forall isByte data ->
    zlibStoredDecode (deflateStore data) = Some (data, adlerValue data) /\
    Z.of_nat (List.length (deflateStore data))
    = 6 + Z.of_nat (List.length data)
      + 5 * ((Z.of_nat (List.length data) + 65534) / 65535) /\
    Forall isByte (deflateStore data).
Proof.
  intros data Hnonempty Hbytes.
  destruct (deflateStore_stream data Hbytes)
    as (blocks & -> & Hblocks & Hcount & Hdecode & _).
  split; [|split].
  - cbn [app zlibStoredDecode].
    rewrite (Hdecode Hnonempty).
    rewrite readUInt32BE_bigEndian32; [reflexivity|].
    rewrite <- (adler32_unsigned data Hbytes). apply toUint32_range.
  - rewrite !length_app. cbn [List.length bigEndian32]. lia.
  - apply Forall_app. split.
    + constructor; [unfold isByte; lia|].
      constructor; [unfold isByte; lia | constructor].
    + apply Forall_app. split; [exact Hblocks | apply bigEndian32_bytes].
Qed.

Lemma deflateStore_round_trip_witness :
  zlibStoredDecode (deflateStore [0; 128; 128; 128])
  = Some ([0; 128; 128; 128], adlerValue [0; 128; 128; 128]) /\
  Z.of_nat (List.length (deflateStore [0; 128; 128; 128]))
  = 6 + Z.of_nat (List.length [0; 128; 128; 128])
    + 5 * ((Z.of_nat (List.length [0; 128; 128; 128]) + 65534) / 65535) /\
  Forall isByte (deflateStore [0; 128; 128; 128]).
Proof.
  apply (deflateStore_round_trip [0; 128; 128; 128]).
  - discriminate.
  - unfold isByte. repeat (constructor; [lia|]). constructor.
Defined.

(** Property X14.  For empty data the loop of [deflateStore] never runs:
    the result is the header and the checksum 1 with no block between
    them, which does not read back as a stream of stored blocks. *)
Theorem deflateStore_empty :
  deflateStore [] = [120; 1; 0; 0; 0; 1] /\
  zlibStoredDecode (deflateStore []) = None /\
  forall data : list Z,
    Forall isByte data ->
    (List.length (deflateStore data) = 6%nat <-> data = []).
Proof.
  split; [reflexivity|]. split; [reflexivity|].
  intros data Hbytes.
  destruct (deflateStore_stream data Hbytes)
    as (blocks & -> & _ & Hcount & _ & Hempty).
  rewrite !length_app. cbn [List.length bigEndian32].
  split.
  - intros Hlen.
    assert (0 <= (Z.of_nat (List.length data) + 65534) / 65535)
      by (apply Z.div_pos; lia).
    destruct data; [reflexivity | cbn [List.length] in *; lia].
  - intros ->. now rewrite (Hempty eq_refl).
Qed.

Lemma deflateStore_empty_witness :
  List.length (deflateStore [7]) = 6%nat <-> [7] = [].
Proof.
  apply (proj2 (proj2 deflateStore_empty) [7]).
  unfold isByte. repeat (constructor; [lia|]). constructor.
Defined.

(** *** Chunks and the whole file *)

Lemma asciiBytes_isByte type : Forall isByte (asciiBytes type).
Proof.
  unfold asciiBytes. apply Forall_forall. intros b Hin.
  apply in_map_iff in Hin as (n & <- & _).
  change 255 with (Z.ones 8). rewrite Z.land_ones by lia.
  apply Z.mod_pos_bound. lia.
Qed.

Lemma createChunk_inside type data :
  Forall isByte data ->
  Z.of_nat (List.length data) <= 4294967295 ->
  createChunk type data
  = Some (bigEndian32 (Z.of_nat (List.length data)) ++ asciiBytes type
          ++ data ++ bigEndian32 (crc32Unsigned (asciiBytes type ++ data))).
Proof.
  intros Hbytes Hlen. unfold createChunk.
  rewrite writeUInt32BE_inside by lia. cbv zeta.
  assert (Hall : Forall isByte (asciiBytes type ++ data))
    by (apply Forall_app; split; [apply asciiBytes_isByte | exact Hbytes]).
  rewrite (crc32_unsigned _ Hall).
  pose proof (crc32Unsigned_range _ Hall).
  rewrite writeUInt32BE_inside by lia. reflexivity.
Qed.

(** Property X15.  A chunk is the length of the data in four bytes, the
    type, the data and the CRC-32 of type and data in four bytes, all most
    significant byte first; the length reads back as written.  Only data
    of 2^32 bytes or more makes [createChunk] throw. *)
Theorem createChunk_layout :
  forall (type : string) (data : list Z),
    Forall isByte data ->
    (Z.of_nat (List.length data) <= 4294967295 ->
     createChunk type data
     = Some (bigEndian32 (Z.of_nat (List.length data)) ++ asciiBytes type
             ++ data
             ++ bigEndian32 (crc32Unsigned (asciiBytes type ++ data))) /\
     readUInt32BE (bigEndian32 (Z.of_nat (List.length data)))
     = Some (Z.of_nat (List.length data)) /\
     readUInt32BE (bigEndian32 (crc32Unsigned (asciiBytes type ++ data)))
     = Some (crc32Unsigned (asciiBytes type ++ data))) /\
    (4294967295 < Z.of_nat (List.length data) -> createChunk type data = None).
Proof.
  intros type data Hbytes. split.
  - intros Hlen. split; [now apply createChunk_inside|]. split.
    + apply readUInt32BE_bigEndian32. lia.
    + apply readUInt32BE_bigEndian32. apply crc32Unsigned_range.
      apply Forall_app. split; [apply asciiBytes_isByte | exact Hbytes].
  - intros Hlen. unfold createChunk.
    now rewrite writeUInt32BE_outside by lia.
Qed.

Lemma createChunk_layout_witness :
  createChunk "IDAT" [1; 2; 3]
  = Some (bigEndian32 (Z.of_nat (List.length [1; 2; 3])) ++ asciiBytes "IDAT"
          ++ [1; 2; 3]
          ++ bigEndian32 (crc32Unsigned (asciiBytes "IDAT" ++ [1; 2; 3]))) /\
  readUInt32BE (bigEndian32 (Z.of_nat (List.length [1; 2; 3])))
  = Some (Z.of_nat (List.length [1; 2; 3])) /\
  readUInt32BE (bigEndian32 (crc32Unsigned (asciiBytes "IDAT" ++ [1; 2; 3])))
  = Some (crc32Unsigned (asciiBytes "IDAT" ++ [1; 2; 3])).
Proof.
  apply (proj1 (createChunk_layout "IDAT" [1; 2; 3]
                  ltac:(unfold isByte; repeat (constructor; [lia|]);
                        constructor))).
  simpl. lia.
Defined.

(** The image data: for each row a filter byte 0 and then three bytes 128
    for each pixel. *)
Definition pixelRows (width height : Z) : list Z :=
  concat (repeat (0 :: concat (repeat [128; 128; 128] (Z.to_nat width)))
                 (Z.to_nat height)).

Lemma fold_repeat {A B : Type} (g : list A -> B -> list A) (block : list A) :
  (forall acc x, g acc x = acc ++ block) ->
  forall (items : list B) (acc : list A),
    fold_left g items acc
    = acc ++ concat (repeat block (List.length items)).
Proof.
  intros Hg. induction items as [|x items IH]; intros acc; simpl.
  - now rewrite app_nil_r.
  - rewrite IH, Hg. now rewrite <- app_assoc.
Qed.

Lemma rawRows_pixelRows width height :
  rawRows width height = pixelRows width height.
Proof.
  unfold rawRows, pixelRows.
  rewrite (fold_repeat _ (0 :: concat (repeat [128; 128; 128]
                                         (Z.to_nat width)))).
  - now rewrite length_seq.
  - intros acc _. cbv zeta.
    rewrite (fold_repeat _ [128; 128; 128]) by reflexivity.
    rewrite length_seq, <- app_assoc. reflexivity.
Qed.

Lemma length_concat_repeat {A : Type} (block : list A) n :
  List.length (concat (repeat block n)) = (n * List.length block)%nat.
Proof.
  induction n as [|n IH]; [reflexivity|].
  cbn [repeat concat]. rewrite length_app, IH. lia.
Qed.

Lemma Forall_concat_repeat {A : Type} (P : A -> Prop) (block : list A) n :
  Forall P block -> Forall P (concat (repeat block n)).
Proof.
  intros H. induction n as [|n IH]; [constructor|].
  cbn [repeat concat]. apply Forall_app. now split.
Qed.

Lemma pixelRows_bytes width height : Forall isByte (pixelRows width height).
Proof.
  unfold pixelRows. apply Forall_concat_repeat.
  constructor; [unfold isByte; lia|].
  apply Forall_concat_repeat.
  unfold isByte. repeat (constructor; [lia|]). constructor.
Qed.

Lemma length_pixelRows width height :
  0 <= width -> 0 <= height ->
  Z.of_nat (List.length (pixelRows width height))
  = height * (1 + 3 * width).
Proof.
  intros Hw Hh. unfold pixelRows.
  rewrite length_concat_repeat. cbn [List.length].
  rewrite length_concat_repeat. cbn [List.length]. nia.
Qed.

(** Property X16.  For a width and a height from 0 to 2^32 - 1 whose image
    data still fits a chunk, [createPlaceholderPng] returns the PNG
    signature, an IHDR chunk with the width and the height (8 bits, RGB),
    an IDAT chunk and the IEND chunk; the file has 57 bytes more than the
    zlib stream, and for a height above 0 that stream reads back as the
    rows of grey pixels, each after a filter byte 0.  A width or a height
    outside that range makes it throw. *)
Theorem createPlaceholderPng_layout :
  forall width height : Z,
    (0 <= width <= 4294967295 ->
     0 <= height <= 4294967295 ->
     6 + height * (1 + 3 * width)
     + 5 * ((height * (1 + 3 * width) + 65534) / 65535) <= 4294967295 ->
     exists png ihdr idat : list Z,
       createPlaceholderPng width height = Some png /\
       png = [137; 80; 78; 71; 13; 10; 26; 10] ++ ihdr ++ idat
             ++ [0; 0; 0; 0; 73; 69; 78; 68; 174; 66; 96; 130] /\
       createChunk "IHDR"
         (bigEndian32 width ++ bigEndian32 height ++ [8; 2; 0; 0; 0])
       = Some ihdr /\
       createChunk "IDAT" (deflateStore (pixelRows width height))
       = Some idat /\
       Z.of_nat (List.length png)
       = 57 + (6 + height * (1 + 3 * width)
               + 5 * ((height * (1 + 3 * width) + 65534) / 65535)) /\
       (0 < height ->
        zlibStoredDecode (deflateStore (pixelRows width height))
        = Some (pixelRows width height,
                adlerValue (pixelRows width height)))) /\
    (width < 0 \/ 4294967295 < width \/ height < 0 \/ 4294967295 < height ->
     createPlaceholderPng width height = None).
Proof.
  intros width height. split.
  - intros Hw Hh Hfit.
    pose proof (pixelRows_bytes width height) as Hrows.
    pose proof (length_pixelRows width height ltac:(lia) ltac:(lia)) as Hlen.
    destruct (deflateStore_stream _ Hrows)
      as (blocks & Hstream & Hblocks & Hcount & Hdecode & _).
    assert (Hzbytes : Forall isByte (deflateStore (pixelRows width height))).
    { rewrite Hstream. apply Forall_app. split.
      - constructor; [unfold isByte; lia|].
        constructor; [unfold isByte; lia | constructor].
      - apply Forall_app. split; [exact Hblocks | apply bigEndian32_bytes]. }
    assert (Hzlen : Z.of_nat (List.length
                                (deflateStore (pixelRows width height)))
                    = 6 + height * (1 + 3 * width)
                      + 5 * ((height * (1 + 3 * width) + 65534) / 65535)).
    { rewrite Hstream, !length_app. cbn [List.length bigEndian32].
      rewrite <- Hlen. lia. }
    assert (Hihdr_bytes : Forall isByte (bigEndian32 width
                                         ++ bigEndian32 height
                                         ++ [8; 2; 0; 0; 0])).
    { apply Forall_app. split; [apply bigEndian32_bytes|].
      apply Forall_app. split; [apply bigEndian32_bytes|].
      unfold isByte. repeat (constructor; [lia|]). constructor. }
    unfold createPlaceholderPng. cbv zeta.
    rewrite !writeUInt32BE_inside by lia.
    rewrite (createChunk_inside "IHDR" _ Hihdr_bytes)
      by (cbn [List.length bigEndian32 app]; lia).
    rewrite rawRows_pixelRows, (bufferFrom_bytes _ Hrows).
    rewrite (createChunk_inside "IDAT" _ Hzbytes) by lia.
    change (createChunk "IEND" [])
      with (Some [0; 0; 0; 0; 73; 69; 78; 68; 174; 66; 96; 130]).
    eexists. eexists. eexists.
    split; [reflexivity|]. split; [reflexivity|].
    split; [reflexivity|]. split; [reflexivity|]. split.
    + rewrite !length_app. cbn [List.length bigEndian32 app].
      change (List.length (asciiBytes "IHDR")) with 4%nat.
      change (List.length (asciiBytes "IDAT")) with 4%nat.
      lia.
    + intros Hpos.
      assert (Hnonempty : pixelRows width height <> []).
      { intros Hnil. rewrite Hnil in Hlen. cbn [List.length] in Hlen. nia. }
      rewrite Hstream. cbn [app zlibStoredDecode].
      rewrite (Hdecode Hnonempty).
      rewrite readUInt32BE_bigEndian32; [reflexivity|].
      rewrite <- (adler32_unsigned _ Hrows). apply toUint32_range.
  - intros Hout. unfold createPlaceholderPng. cbv zeta.
    destruct (Z_lt_dec width 0) as [Hw|Hw];
      [now rewrite (writeUInt32BE_outside width) by lia|].
    destruct (Z_lt_dec 4294967295 width) as [Hw'|Hw'];
      [now rewrite (writeUInt32BE_outside width) by lia|].
    rewrite (writeUInt32BE_inside width) by lia.
    now rewrite (writeUInt32BE_outside height) by lia.
Qed.

Lemma createPlaceholderPng_layout_witness :
  exists png ihdr idat : list Z,
    createPlaceholderPng 2 3 = Some png /\
    png = [137; 80; 78; 71; 13; 10; 26; 10] ++ ihdr ++ idat
          ++ [0; 0; 0; 0; 73; 69; 78; 68; 174; 66; 96; 130] /\
    createChunk "IHDR" (bigEndian32 2 ++ bigEndian32 3 ++ [8; 2; 0; 0; 0])
    = Some ihdr /\
    createChunk "IDAT" (deflateStore (pixelRows 2 3)) = Some idat /\
    Z.of_nat (List.length png)
    = 57 + (6 + 3 * (1 + 3 * 2) + 5 * ((3 * (1 + 3 * 2) + 65534) / 65535)) /\
    (0 < 3 ->
     zlibStoredDecode (deflateStore (pixelRows 2 3))
     = Some (pixelRows 2 3, adlerValue (pixelRows 2 3))).
Proof.
  apply (proj1 (createPlaceholderPng_layout 2 3)).
  - lia.
  - lia.
  - vm_compute. discriminate.
Defined.

End Assets.

(* ================================================================== *)
(** ** src/generators/config.ts: [generateBundleConfig] *)
(* ================================================================== *)

Module Generators.
Import Text Types Manifest.

(** The object that [generateBundleConfig] writes to bundle.config.json,
    as [readBundleConfig] reads it back. *)
Definition generatedBundleConfig : BundleConfig.t :=
  {| BundleConfig.publisher := Some "CN=YourCompany";
     BundleConfig.publisherDisplayName := Some "Your Company Name";
     BundleConfig.capabilities := Some DEFAULT_CAPABILITIES;
     BundleConfig.extensions :=
       Some {| Extensions.shareTarget := Some false;
               Extensions.fileAssociations := Some [];
               Extensions.protocolHandlers := Some [];
               Extensions.startupTask := None;
               Extensions.contextMenus := None;
               Extensions.backgroundTasks := None;
               Extensions.appExecutionAliases := None;
               Extensions.appServices := None;
               Extensions.toastActivation := None;
               Extensions.autoplayHandlers := None;
               Extensions.printTaskSettings := None;
               Extensions.thumbnailHandlers := None;
               Extensions.previewHandlers := None |};
     BundleConfig.signing :=
       Some {| Signing.pfx := None; Signing.pfxPassword := None |};
     BundleConfig.resourceIndex :=
       Some {| ResourceIndex.enabled := Some false;
               ResourceIndex.keepConfig := Some false |};
     BundleConfig.otherKeys := [] |}.

(** Property X20.  The configuration that init generates is accepted by
    the configuration block of [build] for every app config: its
    capabilities pass the validation, and the merged object has the
    publisher and the publisher display name of the generated file.  A
    merged config with its extensions renders no extension block, and its
    capabilities render as runFullTrust and internetClient. *)
Theorem generatedBundleConfig_builds :
  forall tauriConfig : TauriConfig.t,
    (exists config : Build.configObject,
        Build.buildConfig tauriConfig generatedBundleConfig
        = Build.Continue config /\
        Build.publisher config = Some "CN=YourCompany" /\
        Build.publisherDisplayName config = Some "Your Company Name") /\
    (forall (getExtensionTemplate : string -> string)
            (merged : MergedConfig.t),
        MergedConfig.extensions merged
        = BundleConfig.extensions generatedBundleConfig ->
        generateExtensions getExtensionTemplate merged = EmptyString) /\
    BundleConfig.capabilities generatedBundleConfig
    = Some DEFAULT_CAPABILITIES /\
    generateCapabilities DEFAULT_CAPABILITIES
    = (fullTrustLine ++ newline ++ "    <Capability Name=" ++ dquote
       ++ "internetClient" ++ dquote ++ " />")%string.
Proof.
  intros tauriConfig. split; [|split; [|split; reflexivity]].
  - rewrite Build.buildConfig_cases.
    change (BundleConfig.capabilities generatedBundleConfig)
      with (Some DEFAULT_CAPABILITIES).
    change (validateCapabilities DEFAULT_CAPABILITIES) with (@nil string).
    eexists. split; [reflexivity|]. split; reflexivity.
  - intros getExtensionTemplate merged Hext.
    destruct (generateExtensions_emits getExtensionTemplate merged)
      as (fragments & Hlen & ->).
    unfold fragmentCount in Hlen. rewrite Hext in Hlen.
    cbn in Hlen. destruct fragments; [reflexivity | discriminate].
Qed.

Lemma generatedBundleConfig_builds_witness :
  generateExtensions (fun _ => "<x/>")
    {| MergedConfig.publisher := "CN=YourCompany";
       MergedConfig.publisherDisplayName := "Your Company Name";
       MergedConfig.resourceIndex := None;
       MergedConfig.capabilities := Some DEFAULT_CAPABILITIES;
       MergedConfig.extensions :=
         BundleConfig.extensions generatedBundleConfig;
       MergedConfig.signing := None;
       MergedConfig.displayName := "App";
       MergedConfig.version := "1.0.0.0";
       MergedConfig.description := "";
       MergedConfig.identifier := "com.example.app" |}
  = EmptyString.
Proof.
  apply (proj1 (proj2 (generatedBundleConfig_builds
                         {| TauriConfig.productName := None;
                            TauriConfig.version := None;
                            TauriConfig.identifier := None;
                            TauriConfig.bundle := None |}))).
  reflexivity.
Defined.

End Generators.
